(** * CPU.py: memory bus, cache and CPU, embedded and verified

    A shallow embedding of the three classes of [CPU.py]:
    - [MemoryBus]: the dict [data_lines] from address to data;
    - [Cache]: the insertion-ordered dict [cache_lines] from address to
      the tuple [(data, count)], in front of a [MemoryBus];
    - [CPU]: registers, program counter, [running] flag and the list
      of instruction strings, with [fetch_instruction],
      [execute_instruction] and [run].

    The two seed files are the lists of their lines ([load_data],
    [load_instructions]); the final dump of the cache is [dump_cache].

    Python integers are [Z].  A Python exception is the [Raise] branch
    of [result].  The [while] loop of [CPU.run] takes fuel: [None]
    means the fuel ran out, never that the loop stopped. *)

From Stdlib Require Import ZArith List String Ascii Bool Lia.
From stdpp Require Import base option list gmap strings.
Import ListNotations.

Local Open Scope string_scope.
Local Open Scope list_scope.
Local Open Scope Z_scope.

(** ** Exceptions and results *)

Inductive exn : Type :=
| KeyError (key : string)      (* [d[k]] on a dict without [k] *)
| ValueError                   (* [int(s)], tuple unpacking, [min] of nothing *)
| IndexError.                  (* [l[i]] out of range *)

Inductive result (A : Type) : Type :=
| Ok (a : A)
| Raise (e : exn).
Arguments Ok {A} a.
Arguments Raise {A} e.

Global Instance result_ret : MRet result := fun A a => Ok a.

Global Instance result_bind : MBind result := fun A B k r =>
  match r with
  | Ok a => k a
  | Raise e => Raise e
  end.

(** What a Python expression of this program evaluates to where the
    type is not fixed: [Cache.read] returns [None], an int, or (on a
    hit) the stored tuple. *)
Inductive pyval : Type :=
| PNone
| PInt (z : Z)
| PTuple (data count : Z).

(** ** The dict of cache lines

    Python's dict keeps insertion order, and [min] over its keys
    returns the first minimal key in that order, so the dict is a list
    of slots [(address, (data, count))] in insertion order. *)

Module PyDict.

Definition line : Type := (Z * Z)%type.        (* (data, count) *)
Definition t : Type := list (Z * line).

Definition keys (d : t) : list Z := map fst d.

(** [d.get(k)] / [d[k]] *)
Fixpoint get (d : t) (k : Z) : option line :=
  match d with
  | [] => None
  | (k', v) :: r => if Z.eqb k k' then Some v else get r k
  end.

(** [k in d] *)
Definition contains (d : t) (k : Z) : bool :=
  match get d k with Some _ => true | None => false end.

(** [d[k] = v]: an existing key keeps its slot, a new key is appended. *)
Fixpoint set (d : t) (k : Z) (v : line) : t :=
  match d with
  | [] => [(k, v)]
  | (k', v') :: r => if Z.eqb k k' then (k', v) :: r else (k', v') :: set r k v
  end.

(** [d.pop(k)] for a key that is present (its value is not used). *)
Fixpoint pop (d : t) (k : Z) : t :=
  match d with
  | [] => []
  | (k', v') :: r => if Z.eqb k k' then r else (k', v') :: pop r k
  end.

(** [min(d.keys(), key=lambda k: d[k][1])]: Python's [min] keeps the
    current candidate unless a later element is strictly smaller. *)
Fixpoint min_from (best : Z * line) (rest : t) : Z :=
  match rest with
  | [] => fst best
  | e :: r => if Z.ltb (snd (snd e)) (snd (snd best))
              then min_from e r else min_from best r
  end.

Definition min_count_key (d : t) : result Z :=
  match d with
  | [] => Raise ValueError          (* min() arg is an empty sequence *)
  | e :: r => Ok (min_from e r)
  end.

(** One pass of the loops below: [d[key] = (d[key][0], d[key][1] + 1)] *)
Definition bump (d : t) (key : Z) : t :=
  match get d key with
  | Some (data, count) => set d key (data, count + 1)
  | None => d
  end.

(** [for key in d: d[key] = (d[key][0], d[key][1] + 1)]: one
    assignment per key, each reading the dict the previous ones left
    (no key is added, so Python allows it while iterating). *)
Definition incr_all (d : t) : t := fold_left bump (keys d) d.

(** [for key in d: if key != k: d[key] = (d[key][0], d[key][1] + 1)] *)
Definition incr_others (d : t) (k : Z) : t :=
  fold_left (fun acc key => if Z.eqb key k then acc else bump acc key)
            (keys d) d.

(** Closed forms of the two loops, equal to them on a dict (a list of
    slots without a repeated key): see [incr_all_map] and
    [incr_others_map]. *)
Definition incr_slot (e : Z * line) : Z * line :=
  (fst e, (fst (snd e), snd (snd e) + 1)).

Definition incr_line (v : line) : line := (fst v, snd v + 1).

Definition map_incr_all (d : t) : t := map incr_slot d.

Definition map_incr_others (d : t) (k : Z) : t :=
  map (fun e => if Z.eqb (fst e) k then e else incr_slot e) d.

(** A list of slots is a dict when no key is repeated. *)
Definition wf (d : t) : Prop := NoDup (keys d).

End PyDict.

(** ** MemoryBus *)

Record MemoryBus : Type := mkMemoryBus { data_lines : gmap Z Z }.

(** [MemoryBus.read]: [self.data_lines.get(address, None)] *)
Definition MemoryBus_read (self : MemoryBus) (address : Z) : option Z :=
  data_lines self !! address.

(** [MemoryBus.write]: [self.data_lines[address] = data] *)
Definition MemoryBus_write (self : MemoryBus) (address data : Z) : MemoryBus :=
  mkMemoryBus (<[address := data]> (data_lines self)).

(** ** Cache *)

Record Cache : Type := mkCache {
  capacity : Z;
  memory_bus : MemoryBus;
  cache_lines : PyDict.t
}.

(** [Cache.__init__] *)
Definition Cache_init (capacity : Z) (memory_bus : MemoryBus) : Cache :=
  mkCache capacity memory_bus [].

Definition with_lines (self : Cache) (d : PyDict.t) : Cache :=
  mkCache (capacity self) (memory_bus self) d.

(** [len(self.cache_lines)] *)
Definition len_lines (self : Cache) : Z := Z.of_nat (length (cache_lines self)).

(** The eviction step of [Cache.read]:
    [if len(self.cache_lines) >= self.capacity: ... pop(min ...)] *)
Definition evict_if_full (self : Cache) : result PyDict.t :=
  if Z.geb (len_lines self) (capacity self) then
    least_recently_used ← PyDict.min_count_key (cache_lines self);
    Ok (PyDict.pop (cache_lines self) least_recently_used)
  else Ok (cache_lines self).

(** [Cache.read]: the value returned and the cache afterwards. *)
Definition Cache_read (self : Cache) (address : Z) : result (pyval * Cache) :=
  match PyDict.get (cache_lines self) address with
  | Some (data, count) =>
      (* hit: [return self.cache_lines[address]], the stored tuple *)
      Ok (PTuple data count, self)
  | None =>
      match MemoryBus_read (memory_bus self) address with
      | Some data =>
          lines ← evict_if_full self;
          let lines := PyDict.set lines address (data, 0) in
          let lines := PyDict.incr_all lines in
          Ok (PInt data, with_lines self lines)
      | None => Ok (PNone, self)
      end
  end.

(** [Cache.write] *)
Definition Cache_write (self : Cache) (address data : Z) : Cache :=
  let bus := MemoryBus_write (memory_bus self) address data in
  if PyDict.contains (cache_lines self) address then
    let lines := PyDict.set (cache_lines self) address (data, 0) in
    mkCache (capacity self) bus (PyDict.incr_others lines address)
  else
    mkCache (capacity self) bus (cache_lines self).

(** ** Strings: [str.split(',')], truthiness and [int(s)]

    A [string] is a sequence of characters with code points below 256. *)

(** [s.split(',')]: never empty, [''.split(',') == ['']]. *)
Fixpoint split_comma (s : string) : list string :=
  match s with
  | EmptyString => [EmptyString]
  | String c r =>
      if Ascii.eqb c "," then EmptyString :: split_comma r
      else match split_comma r with
           | h :: t => String c h :: t
           | [] => [String c EmptyString]
           end
  end.

(** [if instruction:] on a string: only the empty string is falsy. *)
Definition truthy (s : string) : bool :=
  match s with EmptyString => false | String _ _ => true end.

(** The characters [int] skips around the number (str.isspace below 256). *)
Definition is_space (c : ascii) : bool :=
  let n := nat_of_ascii c in
  ((9 <=? n)%nat && (n <=? 13)%nat) || ((28 <=? n)%nat && (n <=? 32)%nat)
  || (n =? 133)%nat || (n =? 160)%nat.

Definition digit_of (c : ascii) : option Z :=
  let n := nat_of_ascii c in
  if ((48 <=? n)%nat && (n <=? 57)%nat) then Some (Z.of_nat n - 48) else None.

Fixpoint lstrip (l : list ascii) : list ascii :=
  match l with
  | c :: r => if is_space c then lstrip r else l
  | [] => []
  end.

Definition strip (l : list ascii) : list ascii := rev (lstrip (rev (lstrip l))).

(** Decimal digits, with single underscores allowed between digits. *)
Fixpoint digits (acc : Z) (after_digit : bool) (l : list ascii) : option Z :=
  match l with
  | [] => if after_digit then Some acc else None
  | c :: r =>
      match digit_of c with
      | Some d => digits (10 * acc + d) true r
      | None => if Ascii.eqb c "_" && after_digit then digits acc false r else None
      end
  end.

(** [int(s)] for a string (base 10); [None] is ValueError.  The limit
    Python puts on the number of digits is not modelled. *)
Definition py_int (s : string) : option Z :=
  match strip (list_ascii_of_string s) with
  | c :: r =>
      if Ascii.eqb c "-" then Z.opp <$> digits 0 false r
      else if Ascii.eqb c "+" then digits 0 false r
      else digits 0 false (c :: r)
  | [] => None
  end.

Definition int (s : string) : result Z :=
  match py_int s with Some z => Ok z | None => Raise ValueError end.

(** [l[i]] on a list: a negative index counts from the end. *)
Definition list_getitem {A : Type} (l : list A) (i : Z) : result A :=
  let n := Z.of_nat (length l) in
  let j := if Z.ltb i 0 then i + n else i in
  if Z.ltb j 0 || Z.leb n j then Raise IndexError
  else match nth_error l (Z.to_nat j) with
       | Some a => Ok a
       | None => Raise IndexError
       end.

(** ** CPU *)

Record CPU : Type := mkCPU {
  cache : Cache;
  registers : gmap string Z;
  PC : Z;
  running : bool;
  instructions : list string
}.

(** [CPU.__init__] followed by [self.instructions = ...] of
    [load_instructions], the lines already read and stripped. *)
Definition CPU_init (cache : Cache) (instructions : list string) : CPU :=
  mkCPU cache (<["R1" := 0]> (<["R2" := 0]> (<["R3" := 0]> ∅))) 0 true instructions.

(** [self.registers[r]] as an expression *)
Definition reg_get (self : CPU) (r : string) : result Z :=
  match registers self !! r with
  | Some z => Ok z
  | None => Raise (KeyError r)
  end.

(** [self.registers[r] = z] *)
Definition reg_set (self : CPU) (r : string) (z : Z) : CPU :=
  mkCPU (cache self) (<[r := z]> (registers self)) (PC self) (running self)
        (instructions self).

(** [CPU.fetch_instruction]: the instruction or [None], and the CPU after. *)
Definition fetch_instruction (self : CPU) : result (option string * CPU) :=
  if Z.ltb (PC self) (Z.of_nat (length (instructions self))) then
    instruction ← list_getitem (instructions self) (PC self);
    Ok (Some instruction,
        mkCPU (cache self) (registers self) (PC self + 1) (running self)
              (instructions self))
  else Ok (None, self).

(** What the program writes: [print(f"Read from cache: {data}")] is the
    event [Printed data]. *)
Inductive event : Type :=
| Printed (data : pyval).

(** [CPU.execute_instruction]: the CPU after, and what was printed. *)
Definition execute_instruction (self : CPU) (instruction : string)
  : result (CPU * list event) :=
  let parts := split_comma instruction in
  let opcode := hd EmptyString parts in
  if String.eqb opcode "HALT" then
    Ok (mkCPU (cache self) (registers self) (PC self) false (instructions self), [])
  else if String.eqb opcode "ADDI" then
    match parts with
    | [_; dest; src; immediate] =>
        a ← reg_get self src;
        b ← int immediate;
        Ok (reg_set self dest (a + b), [])
    | _ => Raise ValueError
    end
  else if String.eqb opcode "ADD" then
    match parts with
    | [_; dest; src1; src2] =>
        a ← reg_get self src1;
        b ← reg_get self src2;
        Ok (reg_set self dest (a + b), [])
    | _ => Raise ValueError
    end
  else if String.eqb opcode "J" then
    match parts with
    | [_; address] =>
        target ← int address;
        Ok (mkCPU (cache self) (registers self) target (running self)
                  (instructions self), [])
    | _ => Raise ValueError
    end
  else if String.eqb opcode "CACHE" then
    match parts with
    | [_; address] =>
        a ← int address;
        '(data, cache') ← Cache_read (cache self) a;
        Ok (mkCPU cache' (registers self) (PC self) (running self)
                  (instructions self), [Printed data])
    | _ => Raise ValueError
    end
  else Ok (self, []).

(** How [CPU.run] was left. *)
Inductive stop : Type :=
| NotRunning          (* the test [while self.running] failed *)
| Break               (* [break]: what was fetched is falsy *)
| Raised (e : exn).   (* an exception reached the caller of [run] *)

Record run_end : Type := mkRunEnd {
  final : CPU;                (* the CPU object when [run] was left *)
  printed : list event;
  executed : list string;     (* the arguments of [execute_instruction], in order *)
  why : stop
}.

(** [CPU.run], one loop iteration per unit of fuel.  [out] and [ran]
    collect what was printed and which instructions were executed.
    Every [raise] of [fetch_instruction] and [execute_instruction]
    comes before the first assignment of the call, so an exception
    leaves the object as the call found it. *)
Fixpoint run_loop (fuel : nat) (self : CPU) (out : list event) (ran : list string)
  : option run_end :=
  match fuel with
  | O => None
  | S fuel' =>
      if running self then
        match fetch_instruction self with
        | Raise e => Some (mkRunEnd self out ran (Raised e))
        | Ok (Some instruction, self1) =>
            if truthy instruction then
              match execute_instruction self1 instruction with
              | Raise e =>
                  Some (mkRunEnd self1 out (ran ++ [instruction]) (Raised e))
              | Ok (self2, o) =>
                  run_loop fuel' self2 (out ++ o) (ran ++ [instruction])
              end
            else Some (mkRunEnd self1 out ran Break)
        | Ok (None, self1) => Some (mkRunEnd self1 out ran Break)
        end
      else Some (mkRunEnd self out ran NotRunning)
  end.

Definition run (fuel : nat) (self : CPU) : option run_end :=
  run_loop fuel self [] [].

(** ** Sequences of cache operations *)

(** One call of [Cache.read] or [Cache.write] on the cache object.  A
    [read] that raises has changed nothing, so only returning calls
    move the state. *)
Inductive cache_step : Cache -> Cache -> Prop :=
| step_read (self : Cache) (address : Z) (v : pyval) (self' : Cache) :
    Cache_read self address = Ok (v, self') -> cache_step self self'
| step_write (self : Cache) (address data : Z) :
    cache_step self (Cache_write self address data).

(** The states a cache built by [Cache(capacity, memory_bus)] can reach. *)
Definition reachable (capacity : Z) (bus : MemoryBus) (self : Cache) : Prop :=
  rtc cache_step (Cache_init capacity bus) self.

(** Every line of the cache holds the data the memory bus has at its address. *)
Definition coherent (self : Cache) : Prop :=
  forall (k data count : Z),
    PyDict.get (cache_lines self) k = Some (data, count) ->
    MemoryBus_read (memory_bus self) k = Some data.

(** An ADD or ADDI whose parts name a source register [r] that the
    register dict does not have, every register read before it (the
    first source of an ADD whose second source is [r]) being there. *)
Definition unknown_source (self : CPU) (parts : list string) (r : string) : Prop :=
  registers self !! r = None /\
  ((exists dest immediate, parts = ["ADDI"; dest; r; immediate]) \/
   (exists dest src2, parts = ["ADD"; dest; r; src2]) \/
   (exists dest src1, parts = ["ADD"; dest; src1; r] /\
                      is_Some (registers self !! src1))).

(** ** Read-only use of the cache *)

(** One returning call of [Cache.read]. *)
Inductive read_step : Cache -> Cache -> Prop :=
| read_step_intro (self : Cache) (address : Z) (v : pyval) (self' : Cache) :
    Cache_read self address = Ok (v, self') -> read_step self self'.

(** The states reached from the empty cache by calls of [Cache.read] only. *)
Definition read_reachable (capacity : Z) (bus : MemoryBus) (self : Cache) : Prop :=
  rtc read_step (Cache_init capacity bus) self.

(** The count of a slot. *)
Definition count_of (e : Z * PyDict.line) : Z := snd (snd e).

(** Counts strictly decreasing along the insertion order, all at least 1. *)
Fixpoint descending (d : PyDict.t) : Prop :=
  match d with
  | [] => True
  | e :: r =>
      1 <= count_of e /\ Forall (fun e' => count_of e' < count_of e) r /\
      descending r
  end.

(** ** Reading the seed files

    A file is the list of its lines, as [for line in file] and
    [file.readlines()] yield them (each with its line end). *)

(** [s.strip()] *)
Definition py_strip (s : string) : string :=
  string_of_list_ascii (strip (list_ascii_of_string s)).

Definition bit_of (c : ascii) : option Z :=
  if Ascii.eqb c "0" then Some 0 else if Ascii.eqb c "1" then Some 1 else None.

Definition is_bit (c : ascii) : Prop := c = "0"%char \/ c = "1"%char.

(** Binary digits, with single underscores allowed between digits. *)
Fixpoint bits (acc : Z) (after_digit : bool) (l : list ascii) : option Z :=
  match l with
  | [] => if after_digit then Some acc else None
  | c :: r =>
      match bit_of c with
      | Some d => bits (2 * acc + d) true r
      | None => if Ascii.eqb c "_" && after_digit then bits acc false r else None
      end
  end.

(** The optional prefix [0b] or [0B] of a base-2 literal, and the one
    underscore allowed after it. *)
Definition skip_prefix_0b (l : list ascii) : list ascii :=
  match l with
  | z :: b :: r =>
      if Ascii.eqb z "0" && (Ascii.eqb b "b" || Ascii.eqb b "B") then
        match r with
        | u :: r' => if Ascii.eqb u "_" then r' else r
        | [] => r
        end
      else l
  | _ => l
  end.

(** [int(s, 2)] for a string; [None] is ValueError. *)
Definition py_int2 (s : string) : option Z :=
  match strip (list_ascii_of_string s) with
  | c :: r =>
      if Ascii.eqb c "-" then Z.opp <$> bits 0 false (skip_prefix_0b r)
      else if Ascii.eqb c "+" then bits 0 false (skip_prefix_0b r)
      else bits 0 false (skip_prefix_0b (c :: r))
  | [] => None
  end.




(** The line end of a line read from a file. *)
Definition newline : string := String (ascii_of_nat 10) EmptyString.

(** [CPU.load_instructions] on the lines of the file:
    [self.instructions = [line.strip() for line in file.readlines()]] *)
Definition load_instructions (self : CPU) (lines : list string) : CPU :=
  mkCPU (cache self) (registers self) (PC self) (running self)
        (map py_strip lines).

(** The binary digits of a positive number, most significant first. *)
Fixpoint pos_bits (p : positive) : list ascii :=
  match p with
  | xH => ["1"%char]
  | xO p' => pos_bits p' ++ ["0"%char]
  | xI p' => pos_bits p' ++ ["1"%char]
  end.

Definition bin_digits (n : Z) : list ascii :=
  match n with
  | Z0 => ["0"%char]
  | Zpos p => pos_bits p
  | Zneg p => pos_bits p
  end.

(** [f"{address:08b}"] of the final dump: binary digits, a minus sign
    for a negative number, zeros after the sign up to a width of 8. *)
Definition format_08b (n : Z) : string :=
  let sign := if Z.ltb n 0 then ["-"%char] else [] in
  let body := bin_digits n in
  let pad := repeat "0"%char (8 - length sign - length body)%nat in
  string_of_list_ascii (sign ++ pad ++ body).

(** The final dump of the cache, one (address text, data) per line of
    [for address, (data, _) in cpu.cache.cache_lines.items()]. *)
Definition dump_cache (d : PyDict.t) : list (string * Z) :=
  map (fun e => (format_08b (fst e), fst (snd e))) d.

(** The CPU with another program counter. *)
Definition with_PC (self : CPU) (pc : Z) : CPU :=
  mkCPU (cache self) (registers self) pc (running self) (instructions self).

(** ** Memories, caches and programs used in the examples *)

(** Address 1 holds 42 and address 2 holds 7. *)
Definition bus_two : MemoryBus := mkMemoryBus (<[1 := 42]> (<[2 := 7]> ∅)).

(** Addresses 1, 2 and 3 hold 10, 20 and 30. *)
Definition bus_three : MemoryBus :=
  mkMemoryBus (<[1 := 10]> (<[2 := 20]> (<[3 := 30]> ∅))).

(** [Cache(2, bus_three)] after [read(1)] and [read(2)]: it is full. *)
Definition cache_full : Cache :=
  mkCache 2 bus_three [(1, (10, 2)); (2, (20, 1))].

(** [Cache(1, bus_two)] after [read(1)] and [read(2)]. *)
Definition cache_one : Cache := mkCache 1 bus_two [(2, (7, 1))].

Definition program_B : list string :=
  ["ADDI,R1,R2,5"; "ADD,R3,R1,R2"; "HALT"; "ADDI,R1,R1,1"].

(** ** Facts about the dict of cache lines *)

Section PyDictFacts.
Import PyDict.
Implicit Types (d p s : PyDict.t) (k : Z) (v : line).

Lemma get_app_notin p s k : ~ In k (keys p) -> get (p ++ s) k = get s k.
Proof.
  induction p as [|[k' v'] p IH]; simpl; [done|]. intros Hn.
  destruct (Z.eqb_spec k k') as [->|Hne]; [exfalso; auto|]. apply IH. auto.
Qed.

Lemma set_app_notin p s k v :
  ~ In k (keys p) -> set (p ++ s) k v = p ++ set s k v.
Proof.
  induction p as [|[k' v'] p IH]; simpl; [done|]. intros Hn.
  destruct (Z.eqb_spec k k') as [->|Hne]; [exfalso; auto|].
  f_equal. apply IH. auto.
Qed.

Lemma get_set_eq d k v : get (set d k v) k = Some v.
Proof.
  induction d as [|[k' v'] d IH]; simpl.
  - by rewrite Z.eqb_refl.
  - destruct (Z.eqb_spec k k') as [->|Hne]; simpl.
    + by rewrite Z.eqb_refl.
    + destruct (Z.eqb_spec k k'); [done|]. apply IH.
Qed.

Lemma get_set_ne d k k' v : k <> k' -> get (set d k v) k' = get d k'.
Proof.
  intros Hne. induction d as [|[k0 v0] d IH]; simpl.
  - destruct (Z.eqb_spec k' k); [congruence|done].
  - destruct (Z.eqb_spec k k0) as [->|Hk]; simpl.
    + destruct (Z.eqb_spec k' k0); [congruence|done].
    + destruct (Z.eqb_spec k' k0); [done|]. apply IH.
Qed.

Lemma get_None_notin d k : get d k = None <-> ~ In k (keys d).
Proof.
  induction d as [|[k' v'] d IH]; simpl; [tauto|].
  destruct (Z.eqb_spec k k') as [->|Hne].
  - split; [done|]. intros H. exfalso. auto.
  - rewrite IH. split; [intros H [?|?]; [congruence|done] | tauto].
Qed.

Lemma get_Some_in d k v : get d k = Some v -> In k (keys d).
Proof.
  intros H. destruct (In_dec Z.eq_dec k (keys d)) as [|Hn]; [done|].
  apply get_None_notin in Hn. congruence.
Qed.

Lemma set_absent d k v : get d k = None -> set d k v = d ++ [(k, v)].
Proof.
  induction d as [|[k' v'] d IH]; simpl; [done|].
  destruct (Z.eqb_spec k k'); [done|]. intros H. by rewrite IH.
Qed.

Lemma keys_set_present d k v : In k (keys d) -> keys (set d k v) = keys d.
Proof.
  induction d as [|[k' v'] d IH]; simpl; [done|].
  destruct (Z.eqb_spec k k') as [->|Hne]; [done|].
  intros [?|H]; [congruence|]. simpl. f_equal. by apply IH.
Qed.

Lemma keys_set_absent d k v : get d k = None -> keys (set d k v) = keys d ++ [k].
Proof. intros H. rewrite (set_absent _ _ _ H). unfold keys. by rewrite map_app. Qed.

Lemma length_set_absent d k v :
  get d k = None -> length (set d k v) = S (length d).
Proof. intros H. rewrite (set_absent _ _ _ H), length_app. simpl. lia. Qed.

Lemma wf_set d k v : wf d -> wf (set d k v).
Proof.
  unfold wf. intros Hwf. destruct (get d k) as [v0|] eqn:Hg.
  - rewrite keys_set_present; [done|]. by eapply get_Some_in.
  - rewrite keys_set_absent by done. apply NoDup_ListNoDup.
    apply NoDup_ListNoDup in Hwf.
    apply List.NoDup_app; [done | repeat constructor; simpl; tauto |].
    intros x Hx [<-|[]]. by apply get_None_notin in Hg.
Qed.

(** *** [pop] *)

Lemma keys_pop_incl d k x : In x (keys (pop d k)) -> In x (keys d).
Proof.
  induction d as [|[k' v'] d IH]; simpl; [done|].
  destruct (Z.eqb_spec k k'); simpl; [tauto|]. intros [?|?]; [tauto|]. right. auto.
Qed.

Lemma wf_pop d k : wf d -> wf (pop d k).
Proof.
  unfold wf. induction d as [|[k' v'] d IH]; simpl; [done|].
  intros Hwf. apply NoDup_cons in Hwf as [Hn Hwf].
  destruct (Z.eqb_spec k k'); [done|]. simpl. apply NoDup_cons. split; [|auto].
  rewrite list_elem_of_In in *. intros Hin. apply Hn. by eapply keys_pop_incl.
Qed.

Lemma get_pop_ne d k k' : k <> k' -> get (pop d k) k' = get d k'.
Proof.
  intros Hne. induction d as [|[k0 v0] d IH]; simpl; [done|].
  destruct (Z.eqb_spec k k0) as [->|Hk]; simpl.
  - destruct (Z.eqb_spec k' k0); [congruence|done].
  - destruct (Z.eqb_spec k' k0); [done|]. apply IH.
Qed.

Lemma get_pop_eq d k : wf d -> get (pop d k) k = None.
Proof.
  unfold wf. induction d as [|[k0 v0] d IH]; simpl; [done|].
  intros Hwf. apply NoDup_cons in Hwf as [Hn Hwf].
  destruct (Z.eqb_spec k k0) as [->|Hk]; simpl.
  - apply get_None_notin. by rewrite <- list_elem_of_In.
  - destruct (Z.eqb_spec k k0); [done|]. by apply IH.
Qed.

Lemma length_pop d k : In k (keys d) -> S (length (pop d k)) = length d.
Proof.
  induction d as [|[k0 v0] d IH]; simpl; [done|].
  destruct (Z.eqb_spec k k0) as [->|Hk]; [done|].
  intros [?|Hin]; [congruence|]. simpl. f_equal. by apply IH.
Qed.

Lemma get_pop_Some d k k' v : get (pop d k) k' = Some v -> wf d -> get d k' = Some v.
Proof.
  intros H Hwf. destruct (Z.eq_dec k k') as [->|Hne].
  - rewrite get_pop_eq in H; done.
  - by rewrite get_pop_ne in H.
Qed.

(** *** [min] *)

Lemma min_from_spec (best : Z * line) (rest : t) :
  exists v, In (min_from best rest, v) (best :: rest) /\
            forall e, In e (best :: rest) -> snd v <= snd (snd e).
Proof.
  revert best. induction rest as [|e rest IH]; intros best; simpl.
  - exists (snd best). split; [left; by destruct best|].
    intros e [<-|[]]. lia.
  - destruct (Z.ltb_spec (snd (snd e)) (snd (snd best))) as [Hlt|Hge].
    + destruct (IH e) as (v & Hin & Hmin). exists v. split.
      * right. exact Hin.
      * intros e' [<-|He'].
        -- specialize (Hmin e (or_introl eq_refl)). lia.
        -- by apply Hmin.
    + destruct (IH best) as (v & Hin & Hmin). exists v. split.
      * destruct Hin as [Hin|Hin]; [by left | right; by right].
      * intros e' [<-|[<-|He']].
        -- apply Hmin. by left.
        -- specialize (Hmin best (or_introl eq_refl)). lia.
        -- apply Hmin. by right.
Qed.

Lemma min_from_in (best : Z * line) (rest : t) :
  In (min_from best rest) (keys (best :: rest)).
Proof.
  destruct (min_from_spec best rest) as (v & Hin & _).
  unfold keys. apply in_map_iff. by exists (min_from best rest, v).
Qed.

Lemma get_in_wf d k v : wf d -> In (k, v) d -> get d k = Some v.
Proof.
  unfold wf. induction d as [|[k0 v0] d IH]; simpl; [done|].
  intros Hwf. apply NoDup_cons in Hwf as [Hn Hwf]. intros [Heq|Hin].
  - injection Heq as -> ->. by rewrite Z.eqb_refl.
  - destruct (Z.eqb_spec k k0) as [->|Hk]; [|by apply IH].
    exfalso. apply Hn. rewrite list_elem_of_In. unfold keys.
    apply in_map_iff. by exists (k0, v).
Qed.

Lemma get_in d k v : get d k = Some v -> In (k, v) d.
Proof.
  induction d as [|[k0 v0] d IH]; simpl; [done|].
  destruct (Z.eqb_spec k k0) as [->|Hk].
  - intros [= ->]. by left.
  - intros H. right. by apply IH.
Qed.

(** *** The two loops *)

Lemma bump_app p k v s :
  ~ In k (keys p) -> bump (p ++ (k, v) :: s) k = p ++ incr_slot (k, v) :: s.
Proof.
  intros Hn. unfold bump. rewrite get_app_notin by done. simpl.
  rewrite Z.eqb_refl. destruct v as [data count].
  rewrite set_app_notin by done. simpl. by rewrite Z.eqb_refl.
Qed.

Lemma keys_app p s : keys (p ++ s) = keys p ++ keys s.
Proof. unfold keys. apply map_app. Qed.

Lemma incr_all_from p s :
  wf (p ++ s) -> fold_left bump (keys s) (p ++ s) = p ++ map_incr_all s.
Proof.
  revert p. induction s as [|[k v] s IH]; intros p Hwf; simpl; [done|].
  assert (Hn : ~ In k (keys p)).
  { unfold wf in Hwf. rewrite keys_app in Hwf. apply NoDup_app in Hwf as (_ & Hd & _).
    intros Hin. apply (Hd k); [by apply list_elem_of_In | simpl; left]. }
  rewrite bump_app by done.
  replace (p ++ incr_slot (k, v) :: s) with ((p ++ [incr_slot (k, v)]) ++ s)
    by (by rewrite <- app_assoc).
  rewrite IH; [by rewrite <- app_assoc|].
  unfold wf in *. rewrite !keys_app in *. simpl in *. by rewrite <- app_assoc.
Qed.

Lemma incr_all_map d : wf d -> incr_all d = map_incr_all d.
Proof. intros Hwf. apply (incr_all_from [] d Hwf). Qed.

Lemma incr_others_from p s k0 :
  wf (p ++ s) ->
  fold_left (fun acc key => if Z.eqb key k0 then acc else bump acc key)
            (keys s) (p ++ s)
  = p ++ map_incr_others s k0.
Proof.
  revert p. induction s as [|[k v] s IH]; intros p Hwf; simpl; [done|].
  assert (Hn : ~ In k (keys p)).
  { unfold wf in Hwf. rewrite keys_app in Hwf. apply NoDup_app in Hwf as (_ & Hd & _).
    intros Hin. apply (Hd k); [by apply list_elem_of_In | simpl; left]. }
  destruct (Z.eqb_spec k k0) as [->|Hne].
  - replace (p ++ (k0, v) :: s) with ((p ++ [(k0, v)]) ++ s)
      by (by rewrite <- app_assoc).
    rewrite IH; [by rewrite <- app_assoc|]. by rewrite <- app_assoc.
  - rewrite bump_app by done.
    replace (p ++ incr_slot (k, v) :: s) with ((p ++ [incr_slot (k, v)]) ++ s)
      by (by rewrite <- app_assoc).
    rewrite IH; [by rewrite <- app_assoc|].
    unfold wf in *. rewrite !keys_app in *. simpl in *. by rewrite <- app_assoc.
Qed.

Lemma incr_others_map d k : wf d -> incr_others d k = map_incr_others d k.
Proof. intros Hwf. apply (incr_others_from [] d k Hwf). Qed.

Lemma keys_map_incr_all d : keys (map_incr_all d) = keys d.
Proof. unfold keys, map_incr_all. rewrite map_map. by apply map_ext. Qed.

Lemma keys_map_incr_others d k : keys (map_incr_others d k) = keys d.
Proof.
  unfold keys, map_incr_others. rewrite map_map. apply map_ext.
  intros e. by destruct (Z.eqb (fst e) k).
Qed.

Lemma get_map_incr_all d k : get (map_incr_all d) k = incr_line <$> get d k.
Proof.
  induction d as [|[k0 v0] d IH]; simpl; [done|].
  destruct (Z.eqb_spec k k0); [done|]. apply IH.
Qed.

Lemma get_map_incr_others d k0 k :
  get (map_incr_others d k0) k
  = if Z.eqb k k0 then get d k else incr_line <$> get d k.
Proof.
  induction d as [|[k1 v1] d IH]; simpl; [by destruct (Z.eqb k k0)|].
  destruct (Z.eqb_spec k1 k0) as [->|Hne]; simpl.
  - rewrite IH. by destruct (Z.eqb k k0).
  - rewrite IH. destruct (Z.eqb_spec k k1) as [Heq|Hk]; [|done].
    subst k. by destruct (Z.eqb_spec k1 k0).
Qed.

End PyDictFacts.

(** ** Cache.write and Cache.read, call by call *)

Section CacheCalls.
Import PyDict.
Implicit Types (self : Cache) (a k data : Z).

Lemma contains_get d k : contains d k = true <-> is_Some (get d k).
Proof.
  unfold contains. destruct (get d k) as [v|]; split; intros H;
    [by exists v | done | done | by destruct H].
Qed.

Lemma contains_false d k : contains d k = false <-> get d k = None.
Proof. unfold contains. by destruct (get d k). Qed.

(** The eviction step either keeps everything (room left) or pops one
    key of the dict. *)
Lemma evict_if_full_cases self kept :
  evict_if_full self = Ok kept ->
  (len_lines self < capacity self /\ kept = cache_lines self) \/
  (capacity self <= len_lines self /\
   exists k, In k (keys (cache_lines self)) /\ kept = pop (cache_lines self) k).
Proof.
  unfold evict_if_full. destruct (Z.geb_spec (len_lines self) (capacity self)) as [Hge|Hlt].
  - destruct (cache_lines self) as [|e r] eqn:Hl; simpl; [done|].
    intros [= <-]. right. split; [lia|]. exists (min_from e r).
    split; [apply min_from_in | done].
  - intros [= <-]. left. split; [lia | done].
Qed.

(** With a positive capacity the eviction step never raises. *)
Lemma evict_if_full_total self :
  0 < capacity self -> exists kept, evict_if_full self = Ok kept.
Proof.
  intros Hcap. unfold evict_if_full, len_lines.
  destruct (Z.geb_spec (Z.of_nat (length (cache_lines self))) (capacity self)) as [Hge|Hlt];
    [|eauto].
  destruct (cache_lines self) as [|e r]; simpl in *; [lia | eauto].
Qed.

(** What the code evicts from a full cache: one line, the first with
    the smallest count. *)
Lemma evict_if_full_min self :
  wf (cache_lines self) -> 0 < capacity self ->
  len_lines self = capacity self ->
  exists k d c,
    get (cache_lines self) k = Some (d, c) /\
    evict_if_full self = Ok (pop (cache_lines self) k) /\
    S (length (pop (cache_lines self) k)) = length (cache_lines self) /\
    get (pop (cache_lines self) k) k = None /\
    (forall k', k' <> k ->
       get (pop (cache_lines self) k) k' = get (cache_lines self) k') /\
    (forall k' d' c', get (cache_lines self) k' = Some (d', c') -> c <= c').
Proof.
  intros Hwf Hcap Hlen. unfold evict_if_full. rewrite Hlen.
  destruct (Z.geb_spec (capacity self) (capacity self)) as [_|?]; [|lia].
  unfold len_lines in Hlen.
  destruct (cache_lines self) as [|e r] eqn:Hl; [simpl in Hlen; lia|].
  destruct (min_from_spec e r) as ([d c] & Hin & Hmin).
  exists (min_from e r), d, c. split; [by apply get_in_wf|].
  split; [done|]. split; [apply length_pop, min_from_in|].
  split; [by apply get_pop_eq|]. split.
  - intros k' Hne. by apply get_pop_ne.
  - intros k' d' c' Hg. apply get_in in Hg. apply (Hmin _ Hg).
Qed.

(** A hit returns the stored tuple and changes nothing. *)
Lemma Cache_read_hit self a data count :
  get (cache_lines self) a = Some (data, count) ->
  Cache_read self a = Ok (PTuple data count, self).
Proof. intros H. unfold Cache_read. by rewrite H. Qed.

(** The returning calls of [Cache.read]. *)
Lemma Cache_read_cases self a v self' :
  Cache_read self a = Ok (v, self') ->
  self' = self \/
  exists data kept,
    get (cache_lines self) a = None /\
    MemoryBus_read (memory_bus self) a = Some data /\
    evict_if_full self = Ok kept /\
    v = PInt data /\
    self' = with_lines self (incr_all (set kept a (data, 0))).
Proof.
  unfold Cache_read. destruct (get (cache_lines self) a) as [[d c]|] eqn:Hg.
  - intros [= <- <-]. by left.
  - destruct (MemoryBus_read (memory_bus self) a) as [data|] eqn:Hm.
    + destruct (evict_if_full self) as [kept|e] eqn:He; simpl; [|done].
      intros [= <- <-]. right. by exists data, kept.
    + intros [= <- <-]. by left.
Qed.

Lemma kept_wf self kept :
  wf (cache_lines self) -> evict_if_full self = Ok kept -> wf kept.
Proof.
  intros Hwf He. apply evict_if_full_cases in He as [[_ ->]|(_ & k & _ & ->)];
    [done | by apply wf_pop].
Qed.

Lemma kept_get self kept k v :
  wf (cache_lines self) -> evict_if_full self = Ok kept ->
  get kept k = Some v -> get (cache_lines self) k = Some v.
Proof.
  intros Hwf He. apply evict_if_full_cases in He as [[_ ->]|(_ & k0 & _ & ->)];
    [done|]. intros H. by eapply get_pop_Some.
Qed.

Lemma kept_absent self kept a :
  wf (cache_lines self) -> evict_if_full self = Ok kept ->
  get (cache_lines self) a = None -> get kept a = None.
Proof.
  intros Hwf He Ha. destruct (get kept a) as [v|] eqn:Hk; [|done].
  rewrite (kept_get _ _ _ _ Hwf He Hk) in Ha. done.
Qed.

(** The lines after a miss that loaded [data]. *)
Lemma miss_lines kept a data k :
  wf kept ->
  get (incr_all (set kept a (data, 0))) k
  = if Z.eqb k a then Some (data, 1) else incr_line <$> get kept k.
Proof.
  intros Hwf. rewrite incr_all_map by (by apply wf_set).
  rewrite get_map_incr_all. destruct (Z.eqb_spec k a) as [->|Hne].
  - by rewrite get_set_eq.
  - by rewrite get_set_ne by congruence.
Qed.

Lemma length_incr_all d : wf d -> length (incr_all d) = length d.
Proof. intros Hwf. rewrite incr_all_map by done. apply length_map. Qed.

Lemma wf_incr_all d : wf d -> wf (incr_all d).
Proof.
  intros Hwf. rewrite incr_all_map by done. unfold wf.
  by rewrite keys_map_incr_all.
Qed.

(** The lines after a write to a resident address. *)
Lemma write_lines d a data k :
  wf d ->
  get (incr_others (set d a (data, 0)) a) k
  = if Z.eqb k a then Some (data, 0) else incr_line <$> get d k.
Proof.
  intros Hwf. rewrite incr_others_map by (by apply wf_set).
  rewrite get_map_incr_others. destruct (Z.eqb_spec k a) as [->|Hne].
  - by rewrite get_set_eq.
  - by rewrite get_set_ne by congruence.
Qed.

Lemma write_keys d a data :
  wf d -> In a (keys d) -> keys (incr_others (set d a (data, 0)) a) = keys d.
Proof.
  intros Hwf Hin. rewrite incr_others_map by (by apply wf_set).
  rewrite keys_map_incr_others. by apply keys_set_present.
Qed.

End CacheCalls.

(** ** The cache, claim by claim *)

Section CacheClaims.
Import PyDict.
Implicit Types (self : Cache) (a k data : Z).

Lemma cache_full_reachable : reachable 2 bus_three cache_full.
Proof.
  unfold reachable.
  eapply rtc_l; [by apply (step_read _ 1 (PInt 10) _)|].
  eapply rtc_l; [by apply (step_read _ 2 (PInt 20) _)|].
  apply rtc_refl.
Qed.

Lemma cache_one_reachable : reachable 1 bus_two cache_one.
Proof.
  unfold reachable.
  eapply rtc_l; [by apply (step_read _ 1 (PInt 42) _)|].
  eapply rtc_l; [by apply (step_read _ 2 (PInt 7) _)|].
  apply rtc_refl.
Qed.

(** C1 (the code differs).  [cache_full] is reachable and at capacity;
    address 3 misses and the memory bus holds 30 for it.  The read
    evicts exactly one line, but it is address 2, whose count 1 is
    the smallest: address 1, with the larger count 2, stays.  The
    code takes [min] of the counts where the claim asks for a line
    of maximal count. *)
Theorem full_cache_evicts_smallest_count :
  reachable 2 bus_three cache_full /\
  len_lines cache_full = capacity cache_full /\
  get (cache_lines cache_full) 3 = None /\
  MemoryBus_read (memory_bus cache_full) 3 = Some 30 /\
  get (cache_lines cache_full) 1 = Some (10, 2) /\
  get (cache_lines cache_full) 2 = Some (20, 1) /\
  evict_if_full cache_full = Ok [(1, (10, 2))] /\
  Cache_read cache_full 3
  = Ok (PInt 30, mkCache 2 bus_three [(1, (10, 3)); (3, (30, 1))]).
Proof. split; [apply cache_full_reachable|]. by repeat split. Qed.

(** C2 (the code differs).  Address 1 is resident in [cache_full]
    with data 10 and count 2.  [Cache.read(1)] returns the stored
    tuple (10, 2), not the data 10, and leaves every line as it was:
    the count of address 1 is still 2, not 0, and the count of
    address 2 is still 1, not 2. *)
Theorem read_hit_returns_tuple_untouched :
  get (cache_lines cache_full) 1 = Some (10, 2) /\
  get (cache_lines cache_full) 2 = Some (20, 1) /\
  Cache_read cache_full 1 = Ok (PTuple 10 2, cache_full) /\
  PTuple 10 2 <> PInt 10.
Proof. by repeat split. Qed.

(** C3, as the spec states it, fails: after the miss on address 1 of
    [Cache(1, bus_two)] no line for address 1 has count 0. *)
Lemma read_miss_count_is_not_zero :
  ~ (exists v self',
        Cache_read (Cache_init 1 bus_two) 1 = Ok (v, self') /\
        exists data, get (cache_lines self') 1 = Some (data, 0)).
Proof. intros (v & self' & [= <- <-] & data & [=]). Qed.

(** C3 as amended.  On a miss for [a] whose data the memory bus
    holds, in a cache of positive capacity, the read returns the
    data; the line of [a] is resident afterwards with count exactly
    1 (it is inserted with 0 and then incremented with the rest);
    every other line is a line kept by the eviction step, with its
    data and its count plus 1.  The eviction step keeps lines of the
    old cache only, and all of them when there was room. *)
Theorem Cache_read_miss_inserts self a data :
  wf (cache_lines self) -> 0 < capacity self ->
  get (cache_lines self) a = None ->
  MemoryBus_read (memory_bus self) a = Some data ->
  exists kept self',
    evict_if_full self = Ok kept /\
    (forall k v, get kept k = Some v -> get (cache_lines self) k = Some v) /\
    (len_lines self < capacity self -> kept = cache_lines self) /\
    Cache_read self a = Ok (PInt data, self') /\
    memory_bus self' = memory_bus self /\
    capacity self' = capacity self /\
    get (cache_lines self') a = Some (data, 1) /\
    (forall k, k <> a ->
       get (cache_lines self') k = incr_line <$> get kept k).
Proof.
  intros Hwf Hcap Ha Hm. destruct (evict_if_full_total self Hcap) as [kept He].
  exists kept, (with_lines self (incr_all (set kept a (data, 0)))).
  pose proof (kept_wf _ _ Hwf He) as Hkwf.
  split; [done|]. split; [intros k v; by apply kept_get|]. split.
  { intros Hlt. apply evict_if_full_cases in He as [[_ ->]|[Hge _]]; [done | lia]. }
  split; [unfold Cache_read; by rewrite Ha, Hm, He|].
  split; [done|]. split; [done|]. simpl. split.
  - rewrite miss_lines by done. by rewrite Z.eqb_refl.
  - intros k Hne. rewrite miss_lines by done.
    by destruct (Z.eqb_spec k a).
Qed.

Lemma Cache_read_miss_inserts_witness :
  exists kept self',
    evict_if_full cache_full = Ok kept /\
    (forall k v, get kept k = Some v -> get (cache_lines cache_full) k = Some v) /\
    (len_lines cache_full < capacity cache_full -> kept = cache_lines cache_full) /\
    Cache_read cache_full 3 = Ok (PInt 30, self') /\
    memory_bus self' = memory_bus cache_full /\
    capacity self' = capacity cache_full /\
    get (cache_lines self') 3 = Some (30, 1) /\
    (forall k, k <> 3 ->
       get (cache_lines self') k = incr_line <$> get kept k).
Proof.
  apply (Cache_read_miss_inserts cache_full 3 30).
  - unfold wf. simpl. apply (bool_decide_unpack _). vm_compute. exact I.
  - reflexivity.
  - reflexivity.
  - reflexivity.
Defined.

(** C6.  [Cache.write(a, v)] writes through: the memory bus holds [v]
    at [a] afterwards, resident or not.  If [a] is resident, its
    line becomes (v, 0), the keys stay as they are, and every other
    line keeps its data with its count plus 1.  If [a] is not
    resident the cache lines are unchanged. *)
Theorem Cache_write_through self a v :
  wf (cache_lines self) ->
  MemoryBus_read (memory_bus (Cache_write self a v)) a = Some v /\
  (contains (cache_lines self) a = true ->
     get (cache_lines (Cache_write self a v)) a = Some (v, 0) /\
     keys (cache_lines (Cache_write self a v)) = keys (cache_lines self) /\
     forall k, k <> a ->
       get (cache_lines (Cache_write self a v)) k
       = incr_line <$> get (cache_lines self) k) /\
  (contains (cache_lines self) a = false ->
     cache_lines (Cache_write self a v) = cache_lines self).
Proof.
  intros Hwf. unfold Cache_write. split; [|split].
  - destruct (contains (cache_lines self) a); simpl;
      unfold MemoryBus_read, MemoryBus_write; simpl; apply lookup_insert_eq.
  - intros Hc. rewrite Hc. simpl. split; [|split].
    + rewrite write_lines by done. by rewrite Z.eqb_refl.
    + apply write_keys; [done|]. apply contains_get in Hc as [x Hx].
      by eapply get_Some_in.
    + intros k Hne. rewrite write_lines by done. by destruct (Z.eqb_spec k a).
  - intros Hc. by rewrite Hc.
Qed.

Lemma Cache_write_through_witness :
  MemoryBus_read (memory_bus (Cache_write cache_full 2 7)) 2 = Some 7 /\
  (contains (cache_lines cache_full) 2 = true ->
     get (cache_lines (Cache_write cache_full 2 7)) 2 = Some (7, 0) /\
     keys (cache_lines (Cache_write cache_full 2 7)) = keys (cache_lines cache_full) /\
     forall k, k <> 2 ->
       get (cache_lines (Cache_write cache_full 2 7)) k
       = incr_line <$> get (cache_lines cache_full) k) /\
  (contains (cache_lines cache_full) 2 = false ->
     cache_lines (Cache_write cache_full 2 7) = cache_lines cache_full).
Proof.
  apply (Cache_write_through cache_full 2 7).
  unfold wf. simpl. apply (bool_decide_unpack _). vm_compute. exact I.
Defined.

(** C8.  When [a] is not resident and the memory bus has nothing at
    [a], [Cache.read(a)] returns [None] without raising, and the
    cache (capacity, memory bus, and every key, data and count of its
    lines) is the one before the call. *)
Theorem Cache_read_absent self a :
  get (cache_lines self) a = None ->
  MemoryBus_read (memory_bus self) a = None ->
  Cache_read self a = Ok (PNone, self).
Proof. intros Ha Hm. unfold Cache_read. by rewrite Ha, Hm. Qed.

Lemma Cache_read_absent_witness :
  Cache_read cache_full 99 = Ok (PNone, cache_full).
Proof. apply (Cache_read_absent cache_full 99); reflexivity. Defined.

End CacheClaims.

(** ** Invariants of the reachable cache states *)

Section CacheInvariants.
Import PyDict.
Implicit Types (self : Cache) (a k data : Z).

Lemma Cache_write_wf self a v :
  wf (cache_lines self) -> wf (cache_lines (Cache_write self a v)).
Proof.
  intros Hwf. unfold Cache_write.
  destruct (contains (cache_lines self) a); simpl; [|done].
  rewrite incr_others_map by (by apply wf_set). unfold wf.
  rewrite keys_map_incr_others. by apply wf_set.
Qed.

Lemma Cache_read_wf self a v self' :
  wf (cache_lines self) -> Cache_read self a = Ok (v, self') ->
  wf (cache_lines self').
Proof.
  intros Hwf Hr. apply Cache_read_cases in Hr as [->|(d & kept & _ & _ & He & _ & ->)];
    [done|]. simpl. apply wf_incr_all, wf_set. by eapply kept_wf.
Qed.

Lemma cache_step_wf self self' :
  cache_step self self' -> wf (cache_lines self) -> wf (cache_lines self').
Proof.
  intros [c a v c' Hr|c a v] Hwf; [by eapply Cache_read_wf | by apply Cache_write_wf].
Qed.

Lemma cache_step_capacity self self' :
  cache_step self self' -> capacity self' = capacity self.
Proof.
  intros [c a v c' Hr|c a v].
  - apply Cache_read_cases in Hr as [->|(d & kept & _ & _ & _ & _ & ->)]; done.
  - unfold Cache_write. by destruct (contains (cache_lines c) a).
Qed.

Lemma cache_step_len self self' :
  cache_step self self' -> wf (cache_lines self) ->
  len_lines self <= capacity self -> len_lines self' <= capacity self'.
Proof.
  intros [c a v c' Hr|c a v] Hwf Hlen.
  - apply Cache_read_cases in Hr as [->|(d & kept & Ha & _ & He & _ & ->)]; [done|].
    unfold len_lines in *. simpl.
    pose proof (kept_wf _ _ Hwf He) as Hkwf.
    pose proof (kept_absent _ _ _ Hwf He Ha) as Hka.
    rewrite length_incr_all by (by apply wf_set).
    rewrite length_set_absent by done.
    apply evict_if_full_cases in He as [[Hlt ->]|(Hge & k & Hin & ->)].
    + unfold len_lines in Hlt. lia.
    + apply length_pop in Hin. lia.
  - unfold Cache_write, len_lines in *.
    destruct (contains (cache_lines c) a) eqn:Hc; simpl; [|done].
    rewrite incr_others_map by (by apply wf_set).
    unfold map_incr_others. rewrite length_map.
    apply contains_get in Hc as [x Hx].
    assert (Hk : keys (set (cache_lines c) a (v, 0)) = keys (cache_lines c))
      by (apply keys_set_present; by eapply get_Some_in).
    apply (f_equal (@length Z)) in Hk. unfold keys in Hk.
    rewrite !length_map in Hk. lia.
Qed.

Lemma cache_step_coherent self self' :
  cache_step self self' -> wf (cache_lines self) ->
  coherent self -> coherent self'.
Proof.
  intros [c a v c' Hr|c a v] Hwf Hco.
  - apply Cache_read_cases in Hr as [->|(d & kept & Ha & Hm & He & _ & ->)]; [done|].
    pose proof (kept_wf _ _ Hwf He) as Hkwf.
    intros k data count. simpl. rewrite miss_lines by done.
    destruct (Z.eqb_spec k a) as [->|Hne].
    + by intros [= <- <-].
    + destruct (get kept k) as [[d0 c0]|] eqn:Hk; simpl; [|done].
      intros [= <- <-]. apply (Hco k d0 c0). by eapply kept_get.
  - intros k data count. unfold Cache_write.
    destruct (contains (cache_lines c) a) eqn:Hc; simpl;
      unfold MemoryBus_read, MemoryBus_write; simpl.
    + rewrite write_lines by done. destruct (Z.eqb_spec k a) as [->|Hne].
      * intros [= <- <-]. apply lookup_insert_eq.
      * destruct (get (cache_lines c) k) as [[d0 c0]|] eqn:Hk; simpl; [|done].
        intros [= <- <-]. rewrite lookup_insert_ne by congruence.
        by apply (Hco k d0 c0).
    + intros Hk. apply contains_false in Hc.
      rewrite lookup_insert_ne by congruence. by apply (Hco k data count).
Qed.

(** Induction on the last call of a sequence of calls. *)
Lemma reachable_ind cap bus (P : Cache -> Prop) :
  P (Cache_init cap bus) ->
  (forall y z, reachable cap bus y -> cache_step y z -> P y -> P z) ->
  forall self, reachable cap bus self -> P self.
Proof. intros H0 Hs self Hr. exact (rtc_ind_r P _ H0 Hs self Hr). Qed.

Lemma reachable_wf cap bus self : reachable cap bus self -> wf (cache_lines self).
Proof.
  revert self. apply reachable_ind.
  - apply NoDup_nil_2.
  - intros y z _ Hyz IH. by eapply cache_step_wf.
Qed.

Lemma reachable_capacity cap bus self : reachable cap bus self -> capacity self = cap.
Proof.
  revert self. apply reachable_ind.
  - done.
  - intros y z _ Hyz IH. by rewrite (cache_step_capacity _ _ Hyz).
Qed.

(** With a positive capacity no call of [Cache.read] raises. *)
Lemma Cache_read_total self a :
  0 < capacity self -> exists v self', Cache_read self a = Ok (v, self').
Proof.
  intros Hcap. unfold Cache_read.
  destruct (get (cache_lines self) a) as [[d c]|]; [eauto|].
  destruct (MemoryBus_read (memory_bus self) a) as [data|]; [|eauto].
  destruct (evict_if_full_total self Hcap) as [kept ->]. simpl. eauto.
Qed.

(** C7.  For a cache built with a positive capacity, every state
    reached from the empty cache by calls of [Cache.read] and
    [Cache.write] has at most [capacity] lines; the capacity is the
    one given at construction, and from such a state no read raises,
    so every sequence of calls can be continued. *)
Theorem cache_size_bounded cap bus self :
  0 < cap -> reachable cap bus self ->
  len_lines self <= cap /\
  capacity self = cap /\
  forall a, exists v self', Cache_read self a = Ok (v, self').
Proof.
  intros Hcap Hr. pose proof (reachable_capacity _ _ _ Hr) as Hc.
  split; [|split; [done|]].
  - rewrite <- Hc. clear Hc. revert self Hr. apply reachable_ind.
    + unfold len_lines. simpl. lia.
    + intros y z Hy Hyz IH.
      apply (cache_step_len _ _ Hyz); [by eapply reachable_wf | done].
  - intros a. apply Cache_read_total. lia.
Qed.

Lemma cache_size_bounded_witness :
  len_lines cache_one <= 1 /\
  capacity cache_one = 1 /\
  forall a, exists v self', Cache_read cache_one a = Ok (v, self').
Proof.
  apply (cache_size_bounded 1 bus_two cache_one); [lia|].
  unfold reachable.
  eapply rtc_l; [by apply (step_read _ 1 (PInt 42) _)|].
  eapply rtc_l; [by apply (step_read _ 2 (PInt 7) _)|].
  apply rtc_refl.
Defined.

(** C10.  In every state reached from the empty cache by calls of
    [Cache.read] and [Cache.write], each resident line holds the
    data the memory bus currently has at its address. *)
Theorem cache_coherent cap bus self :
  reachable cap bus self -> coherent self.
Proof.
  revert self. apply reachable_ind.
  - intros k data count. done.
  - intros y z Hy Hyz IH.
    apply (cache_step_coherent _ _ Hyz); [by eapply reachable_wf | done].
Qed.

Lemma cache_coherent_witness :
  coherent (Cache_write cache_full 2 7).
Proof.
  apply (cache_coherent 2 bus_three).
  unfold reachable.
  eapply rtc_l; [by apply (step_read _ 1 (PInt 10) _)|].
  eapply rtc_l; [by apply (step_read _ 2 (PInt 20) _)|].
  eapply rtc_l; [apply (step_write _ 2 7)|].
  apply rtc_refl.
Defined.

End CacheInvariants.

(** ** The CPU, claim by claim *)

Section CPUClaims.
Implicit Types (self cpu : CPU) (instruction r : string).

Lemma fetch_keeps_registers cpu o self :
  fetch_instruction cpu = Ok (o, self) ->
  registers self = registers cpu /\ running self = running cpu /\
  instructions self = instructions cpu /\ cache self = cache cpu.
Proof.
  unfold fetch_instruction.
  destruct (Z.ltb (PC cpu) (Z.of_nat (length (instructions cpu)))).
  - destruct (list_getitem (instructions cpu) (PC cpu)); simpl; [|done].
    by intros [= <- <-].
  - by intros [= <- <-].
Qed.

Lemma split_comma_truthy instruction op rest :
  split_comma instruction = op :: rest -> rest <> [] -> truthy instruction = true.
Proof. destruct instruction; simpl; [by intros [= <- <-]|done]. Qed.

(** An ADDI whose destination is not a register yet, its source and
    immediate being fine, does not fail: the assignment adds the key. *)
Lemma ADDI_assigns_dest self instruction dest src immediate a b :
  split_comma instruction = ["ADDI"; dest; src; immediate] ->
  registers self !! src = Some a -> py_int immediate = Some b ->
  execute_instruction self instruction = Ok (reg_set self dest (a + b), []) /\
  registers (reg_set self dest (a + b)) !! dest = Some (a + b).
Proof.
  intros Hs Ha Hb. unfold execute_instruction, reg_get, int. rewrite Hs. simpl.
  rewrite Ha, Hb. simpl. split; [done | apply lookup_insert_eq].
Qed.

Lemma ADD_assigns_dest self instruction dest src1 src2 a b :
  split_comma instruction = ["ADD"; dest; src1; src2] ->
  registers self !! src1 = Some a -> registers self !! src2 = Some b ->
  execute_instruction self instruction = Ok (reg_set self dest (a + b), []) /\
  registers (reg_set self dest (a + b)) !! dest = Some (a + b).
Proof.
  intros Hs Ha Hb. unfold execute_instruction, reg_get. rewrite Hs. simpl.
  rewrite Ha, Hb. simpl. split; [done | apply lookup_insert_eq].
Qed.

(** C4, as the spec states it, fails: on the initial registers,
    "ADDI,R4,R1,5" names the destination R4 outside R1, R2, R3; it
    raises nothing and leaves a new register R4 holding 5. *)
Lemma ADDI_unknown_dest_creates_register :
  let cpu := CPU_init cache_full ["ADDI,R4,R1,5"] in
  registers cpu !! "R4" = None /\
  exists cpu',
    execute_instruction cpu "ADDI,R4,R1,5" = Ok (cpu', []) /\
    registers cpu' !! "R4" = Some 5.
Proof.
  simpl. split; [by vm_compute|].
  eexists. split; [by vm_compute | by vm_compute].
Qed.

(** C4 as amended.  An ADD or ADDI that names as a source a register
    the register dict does not have raises [KeyError] for that name.
    When [run] fetches and executes it, the exception reaches the
    caller of [run], and the registers are the ones before that
    iteration: no entry was created. *)
Theorem unknown_source_raises self instruction r :
  unknown_source self (split_comma instruction) r ->
  execute_instruction self instruction = Raise (KeyError r) /\
  forall cpu fuel out ran,
    running cpu = true ->
    fetch_instruction cpu = Ok (Some instruction, self) ->
    run_loop (S fuel) cpu out ran
    = Some (mkRunEnd self out (ran ++ [instruction]) (Raised (KeyError r))) /\
    registers self = registers cpu.
Proof.
  intros [Hr Hparts].
  assert (Hex : execute_instruction self instruction = Raise (KeyError r)).
  { unfold execute_instruction, reg_get.
    destruct Hparts as [(dest & imm & ->)|[(dest & src2 & ->)|(dest & src1 & -> & [a Ha])]];
      simpl; rewrite ?Ha, Hr; done. }
  split; [done|]. intros cpu fuel out ran Hrun Hf.
  split; [|by apply fetch_keeps_registers in Hf as [? _]].
  simpl. rewrite Hrun, Hf.
  assert (Ht : truthy instruction = true).
  { destruct Hparts as [(dest & imm & Hs)|[(dest & src2 & Hs)|(dest & src1 & Hs & _)]];
      by apply (split_comma_truthy _ _ _ Hs). }
  by rewrite Ht, Hex.
Qed.

Lemma unknown_source_raises_witness :
  let self := mkCPU cache_full (registers (CPU_init cache_full [])) 1 true
                    ["ADD,R1,R2,R9"] in
  execute_instruction self "ADD,R1,R2,R9" = Raise (KeyError "R9") /\
  forall cpu fuel out ran,
    running cpu = true ->
    fetch_instruction cpu = Ok (Some "ADD,R1,R2,R9", self) ->
    run_loop (S fuel) cpu out ran
    = Some (mkRunEnd self out (ran ++ ["ADD,R1,R2,R9"]) (Raised (KeyError "R9"))) /\
    registers self = registers cpu.
Proof.
  intros self. apply (unknown_source_raises self "ADD,R1,R2,R9" "R9").
  split; [by vm_compute|]. right. right. exists "R1", "R2".
  split; [reflexivity|]. exists 0. by vm_compute.
Defined.

(** How [run] stops, in general: the [while] test fails only with
    [running] false; [break] is taken with the program counter at or
    past the end, or right after an empty string was fetched. *)
Lemma run_loop_stop fuel self out ran e :
  run_loop fuel self out ran = Some e ->
  match why e with
  | NotRunning => running (final e) = false
  | Break =>
      Z.of_nat (length (instructions (final e))) <= PC (final e) \/
      exists cpu, fetch_instruction cpu = Ok (Some "", final e)
  | Raised _ => True
  end.
Proof.
  revert self out ran. induction fuel as [|fuel IH]; intros self out ran; [done|].
  simpl. destruct (running self) eqn:Hrun; [|by intros [= <-]].
  destruct (fetch_instruction self) as [[[i|] self1]|x] eqn:Hf;
    [| |by intros [= <-]].
  - destruct (truthy i) eqn:Ht.
    + destruct (execute_instruction self1 i) as [[self2 o]|x]; [|by intros [= <-]].
      apply IH.
    + intros [= <-]. simpl. right. exists self. by destruct i.
  - intros [= <-]. simpl. left. unfold fetch_instruction in Hf.
    destruct (Z.ltb_spec (PC self) (Z.of_nat (length (instructions self)))) as [Hlt|Hge].
    + by destruct (list_getitem (instructions self) (PC self)).
    + by injection Hf as <-.
Qed.

(** C5 (the code differs).  On the two instructions "" and "HALT"
    the first fetch returns the empty string, not [None]; the test
    [if instruction:] fails on it and [run] breaks out of the loop
    with [running] still true, the program counter 1 below the
    length 2, and nothing executed: neither HALT nor the end of the
    program stopped it. *)
Theorem run_breaks_on_empty_instruction (c : Cache) (n : nat) :
  let cpu := CPU_init c [""; "HALT"] in
  fetch_instruction cpu
  = Ok (Some "", mkCPU c (registers cpu) 1 true [""; "HALT"]) /\
  exists e,
    run (S n) cpu = Some e /\
    why e = Break /\
    running (final e) = true /\
    PC (final e) = 1 /\
    PC (final e) < Z.of_nat (length (instructions (final e))) /\
    executed e = [].
Proof.
  simpl. split; [done|]. eexists. split; [reflexivity|]. simpl.
  repeat split; lia.
Qed.

(** C9.  On the four instructions of scenario B, from the initial
    CPU, [run] stops (any fuel from 4 on is enough) because
    [running] is false after HALT, with R1 = 5, R2 = 0, R3 = 5 and
    the program counter at 3; the instructions executed are the
    first three, the fourth is not among them, and nothing is
    printed. *)
Theorem scenario_B (c : Cache) (n : nat) :
  exists e,
    run (4 + n) (CPU_init c program_B) = Some e /\
    why e = NotRunning /\
    running (final e) = false /\
    registers (final e) !! "R1" = Some 5 /\
    registers (final e) !! "R2" = Some 0 /\
    registers (final e) !! "R3" = Some 5 /\
    PC (final e) = 3 /\
    executed e = ["ADDI,R1,R2,5"; "ADD,R3,R1,R2"; "HALT"] /\
    printed e = [] /\
    cache (final e) = c.
Proof.
  eexists. split; [by vm_compute|]. by vm_compute.
Qed.

End CPUClaims.

(** ** More on the cache: eviction order, reads after reads and writes *)

Section CacheExtras.
Import PyDict.
Implicit Types (self : Cache) (a k data : Z) (d p s : PyDict.t).

(** [min] splits the slots at its result: strictly larger counts
    before it, counts at least as large after it. *)
Lemma min_from_split (best : Z * line) (rest : t) :
  exists p v s,
    best :: rest = p ++ (min_from best rest, v) :: s /\
    Forall (fun e => snd v < count_of e) p /\
    Forall (fun e => snd v <= count_of e) s.
Proof.
  revert best. induction rest as [|e r IH]; intros best; simpl.
  - exists [], (snd best), []. destruct best as [k v]. simpl. by repeat split.
  - destruct (Z.ltb_spec (snd (snd e)) (snd (snd best))) as [Hlt|Hge].
    + destruct (IH e) as (p & v & s & Heq & Hp & Hs).
      exists (best :: p), v, s. split; [simpl; by rewrite Heq|].
      split; [|done]. apply Forall_cons. split; [|done].
      unfold count_of. destruct p as [|e0 p]; simpl in Heq.
      * injection Heq as He _. rewrite He in Hlt. simpl in Hlt. lia.
      * injection Heq as He _. subst e0. apply Forall_cons in Hp as [Hp _].
        unfold count_of in Hp. lia.
    + destruct (IH best) as (p & v & s & Heq & Hp & Hs).
      destruct p as [|e0 p]; simpl in Heq.
      * injection Heq as Hb Hr. exists [], v, (e :: s). simpl.
        split; [by rewrite <- Hb, Hr|]. split; [done|].
        apply Forall_cons. split; [|done]. unfold count_of.
        rewrite Hb in Hge. simpl in Hge. lia.
      * injection Heq as Hb Hr. subst e0. exists (best :: e :: p), v, s. simpl.
        split; [do 2 f_equal; exact Hr|]. split; [|done].
        apply Forall_cons in Hp as [Hb Hp].
        apply Forall_cons. split; [done|]. apply Forall_cons. split; [|done].
        unfold count_of in *. lia.
Qed.

Lemma pop_app_notin p s k v :
  ~ In k (keys p) -> pop (p ++ (k, v) :: s) k = p ++ s.
Proof.
  induction p as [|[k' v'] p IH]; simpl.
  - intros _. by rewrite Z.eqb_refl.
  - intros Hn. destruct (Z.eqb_spec k k') as [->|Hne]; [exfalso; auto|].
    f_equal. apply IH. auto.
Qed.

Lemma wf_app_notin p s k v : wf (p ++ (k, v) :: s) -> ~ In k (keys p).
Proof.
  unfold wf. rewrite keys_app. simpl. intros Hwf Hin.
  apply NoDup_app in Hwf as (_ & Hd & _).
  apply (Hd k); [by apply list_elem_of_In | left].
Qed.

(** The eviction step on a cache that has reached its capacity. *)
Lemma evict_if_full_split self :
  wf (cache_lines self) -> 0 < capacity self ->
  capacity self <= len_lines self ->
  exists p k dat c s,
    cache_lines self = p ++ (k, (dat, c)) :: s /\
    evict_if_full self = Ok (p ++ s) /\
    Forall (fun e => c < count_of e) p /\
    Forall (fun e => c <= count_of e) s.
Proof.
  intros Hwf Hcap Hlen. unfold evict_if_full.
  destruct (Z.geb_spec (len_lines self) (capacity self)) as [_|?]; [|lia].
  unfold len_lines in Hlen.
  destruct (cache_lines self) as [|e r] eqn:Hl; [simpl in Hlen; lia|].
  destruct (min_from_split e r) as (p & [dat c] & s & Heq & Hp & Hs).
  exists p, (min_from e r), dat, c, s. split; [done|]. split; [|done].
  cbn [min_count_key mbind result_bind]. rewrite Heq.
  rewrite pop_app_notin; [done|].
  rewrite Heq in Hwf. by eapply wf_app_notin.
Qed.


(** X1.  When the cache has reached its capacity, the eviction step of
    a miss removes exactly one line: the first one, in insertion
    order, among the lines of smallest count.  Every line inserted
    before it has a strictly larger count, every line after it a count
    at least as large, and the other lines stay in their order. *)
Theorem eviction_takes_first_smallest self :
  wf (cache_lines self) -> 0 < capacity self ->
  capacity self <= len_lines self ->
  exists p k dat c s,
    cache_lines self = p ++ (k, (dat, c)) :: s /\
    evict_if_full self = Ok (p ++ s) /\
    Forall (fun e => c < count_of e) p /\
    Forall (fun e => c <= count_of e) s.
Proof. apply evict_if_full_split. Qed.

Lemma eviction_takes_first_smallest_witness :
  exists p k dat c s,
    cache_lines cache_full = p ++ (k, (dat, c)) :: s /\
    evict_if_full cache_full = Ok (p ++ s) /\
    Forall (fun e => c < count_of e) p /\
    Forall (fun e => c <= count_of e) s.
Proof.
  apply (eviction_takes_first_smallest cache_full).
  - unfold wf. simpl. apply (bool_decide_unpack _). vm_compute. exact I.
  - reflexivity.
  - vm_compute. discriminate.
Defined.

Lemma reachable_len cap bus self :
  0 <= cap -> reachable cap bus self -> len_lines self <= capacity self.
Proof.
  intros Hcap. revert self. apply reachable_ind.
  - unfold len_lines. simpl. lia.
  - intros y z Hy Hyz IH.
    apply (cache_step_len _ _ Hyz); [by eapply reachable_wf | done].
Qed.

Lemma reachable_coherent cap bus self : reachable cap bus self -> coherent self.
Proof.
  revert self. apply reachable_ind.
  - intros k data count. done.
  - intros y z Hy Hyz IH.
    apply (cache_step_coherent _ _ Hyz); [by eapply reachable_wf | done].
Qed.

(** X2.  In a cache of capacity 1, every miss whose address the memory
    bus holds replaces the whole content: afterwards the only line is
    the one just loaded, with count 1. *)
Theorem capacity_one_replaces cap bus self a data :
  cap = 1 -> reachable cap bus self ->
  get (cache_lines self) a = None ->
  MemoryBus_read (memory_bus self) a = Some data ->
  Cache_read self a
  = Ok (PInt data, mkCache 1 (memory_bus self) [(a, (data, 1))]).
Proof.
  intros -> Hr Ha Hm.
  assert (Hlen : len_lines self <= capacity self) by (apply (reachable_len 1 bus); [lia | done]).
  pose proof (reachable_capacity _ _ _ Hr) as Hcap.
  unfold Cache_read. rewrite Ha, Hm. unfold evict_if_full, with_lines.
  rewrite Hcap in *. unfold len_lines in *.
  destruct (cache_lines self) as [|[k0 v0] [|e r]] eqn:Hl;
    [| |cbn [length] in Hlen; lia].
  - simpl. unfold incr_all, bump. simpl. by rewrite Z.eqb_refl.
  - simpl. rewrite Z.eqb_refl. simpl. unfold incr_all, bump. simpl.
    by rewrite Z.eqb_refl.
Qed.

Lemma capacity_one_replaces_witness :
  Cache_read cache_one 1
  = Ok (PInt 42, mkCache 1 (memory_bus cache_one) [(1, (42, 1))]).
Proof.
  apply (capacity_one_replaces 1 bus_two cache_one 1 42);
    [reflexivity | apply cache_one_reachable | reflexivity | reflexivity].
Defined.

(** X3.  Once a read of an address the memory bus holds has returned,
    the address is resident with the data of the memory bus, and
    reading it again is a hit that returns the stored tuple and leaves
    the cache as it is. *)
Theorem read_then_hit self a data v self' :
  wf (cache_lines self) -> coherent self ->
  MemoryBus_read (memory_bus self) a = Some data ->
  Cache_read self a = Ok (v, self') ->
  exists c,
    get (cache_lines self') a = Some (data, c) /\
    Cache_read self' a = Ok (PTuple data c, self').
Proof.
  intros Hwf Hco Hm. unfold Cache_read at 1.
  destruct (get (cache_lines self) a) as [[d c]|] eqn:Hg.
  - intros [= <- <-]. pose proof (Hco a d c Hg) as Hd. rewrite Hm in Hd.
    injection Hd as <-. exists c. split; [done | by apply Cache_read_hit].
  - rewrite Hm. destruct (evict_if_full self) as [kept|e] eqn:He; simpl; [|done].
    intros [= <- <-]. exists 1.
    assert (Hg' : get (incr_all (set kept a (data, 0))) a = Some (data, 1)).
    { rewrite miss_lines by (by eapply kept_wf). by rewrite Z.eqb_refl. }
    split; [done | by apply Cache_read_hit].
Qed.

Lemma read_then_hit_witness :
  exists c,
    get (cache_lines (mkCache 2 bus_three [(1, (10, 3)); (3, (30, 1))])) 3
    = Some (30, c) /\
    Cache_read (mkCache 2 bus_three [(1, (10, 3)); (3, (30, 1))]) 3
    = Ok (PTuple 30 c, mkCache 2 bus_three [(1, (10, 3)); (3, (30, 1))]).
Proof.
  apply (read_then_hit cache_full 3 30 (PInt 30)).
  - unfold wf. simpl. apply (bool_decide_unpack _). vm_compute. exact I.
  - apply (reachable_coherent 2 bus_three), cache_full_reachable.
  - reflexivity.
  - reflexivity.
Defined.

(** X4.  A read that follows [Cache.write(a, v)] gives [v] back: as
    the tuple (v, 0), the cache unchanged, when [a] was resident, and
    as the value [v] loaded from the memory bus into a new line when
    it was not.  With a positive capacity the read does not raise. *)
Theorem write_then_read self a v :
  wf (cache_lines self) -> 0 < capacity self ->
  exists r self',
    Cache_read (Cache_write self a v) a = Ok (r, self') /\
    (contains (cache_lines self) a = true ->
       r = PTuple v 0 /\ self' = Cache_write self a v) /\
    (contains (cache_lines self) a = false ->
       r = PInt v /\ get (cache_lines self') a = Some (v, 1)).
Proof.
  intros Hwf Hcap. unfold Cache_write.
  destruct (contains (cache_lines self) a) eqn:Hc.
  - eexists _, _. split; [|split; [done|done]].
    apply Cache_read_hit. simpl. rewrite write_lines by done.
    by rewrite Z.eqb_refl.
  - apply contains_false in Hc.
    set (w := mkCache (capacity self) (MemoryBus_write (memory_bus self) a v)
                      (cache_lines self)).
    destruct (evict_if_full_total w Hcap) as [kept He].
    exists (PInt v), (with_lines w (incr_all (set kept a (v, 0)))).
    split; [|split; [done|]].
    + unfold Cache_read. simpl. rewrite Hc.
      unfold MemoryBus_read, MemoryBus_write. simpl.
      rewrite lookup_insert_eq. by rewrite He.
    + intros _. split; [done|]. simpl.
      rewrite miss_lines by (by apply (kept_wf w)). by rewrite Z.eqb_refl.
Qed.

Lemma write_then_read_witness :
  exists r self',
    Cache_read (Cache_write cache_full 3 7) 3 = Ok (r, self') /\
    (contains (cache_lines cache_full) 3 = true ->
       r = PTuple 7 0 /\ self' = Cache_write cache_full 3 7) /\
    (contains (cache_lines cache_full) 3 = false ->
       r = PInt 7 /\ get (cache_lines self') 3 = Some (7, 1)).
Proof.
  apply (write_then_read cache_full 3 7).
  - unfold wf. simpl. apply (bool_decide_unpack _). vm_compute. exact I.
  - reflexivity.
Defined.

Lemma cache_step_counts self self' :
  cache_step self self' -> wf (cache_lines self) ->
  (forall k dat c, get (cache_lines self) k = Some (dat, c) -> 0 <= c) ->
  forall k dat c, get (cache_lines self') k = Some (dat, c) -> 0 <= c.
Proof.
  intros [w a v w' Hr|w a v] Hwf Hpos k x c.
  - apply Cache_read_cases in Hr as [->|(dat & kept & Ha & Hm & He & _ & ->)];
      [by apply Hpos|].
    simpl. rewrite miss_lines by (by eapply kept_wf).
    destruct (Z.eqb_spec k a); [intros [= <- <-]; lia|].
    destruct (get kept k) as [[d0 c0]|] eqn:Hk; simpl; [|done].
    intros [= <- <-]. pose proof (kept_get _ _ _ _ Hwf He Hk) as Hk'.
    specialize (Hpos _ _ _ Hk'). simpl. lia.
  - unfold Cache_write. destruct (contains (cache_lines w) a); simpl;
      [|by apply Hpos].
    rewrite write_lines by done.
    destruct (Z.eqb_spec k a); [intros [= <- <-]; lia|].
    destruct (get (cache_lines w) k) as [[d0 c0]|] eqn:Hk; simpl; [|done].
    intros [= <- <-]. specialize (Hpos _ _ _ Hk). simpl. lia.
Qed.

(** X5.  The count of a line is never negative: in every state reached
    from the empty cache by reads and writes, each resident line has a
    count of at least 0. *)
Theorem counts_never_negative cap bus self k dat c :
  reachable cap bus self ->
  get (cache_lines self) k = Some (dat, c) -> 0 <= c.
Proof.
  intros Hr. revert k dat c. revert self Hr.
  apply (reachable_ind cap bus
           (fun w => forall k dat c, get (cache_lines w) k = Some (dat, c) -> 0 <= c)).
  - intros k dat c. done.
  - intros y z Hy Hyz IH.
    apply (cache_step_counts _ _ Hyz); [by eapply reachable_wf | done].
Qed.

Lemma counts_never_negative_witness :
  get (cache_lines cache_full) 2 = Some (20, 1) /\ 0 <= 1.
Proof.
  split; [reflexivity|].
  apply (counts_never_negative 2 bus_three cache_full 2 20 1);
    [apply cache_full_reachable | reflexivity].
Defined.

End CacheExtras.

(** ** Reads only: which line a full cache gives up *)

Section ReadOnly.
Import PyDict.
Implicit Types (self : Cache) (a k data : Z) (d p s : PyDict.t).

Lemma read_reachable_reachable cap bus self :
  read_reachable cap bus self -> reachable cap bus self.
Proof.
  unfold read_reachable, reachable. intros Hr.
  eapply (rtc_subrel read_step cache_step); [|exact Hr].
  intros x y [w a v w' Hw]. by eapply step_read.
Qed.

Lemma descending_tail p e s :
  descending (p ++ e :: s) -> Forall (fun e' => count_of e' < count_of e) s.
Proof.
  induction p as [|e0 p IH]; simpl.
  - by intros (_ & H & _).
  - intros (_ & _ & H). by apply IH.
Qed.

Lemma descending_front p s : descending (p ++ s) -> descending p.
Proof.
  induction p as [|e0 p IH]; simpl; [done|].
  intros (H1 & Hall & Hd). split; [done|]. split; [|by apply IH].
  apply Forall_app in Hall. tauto.
Qed.

Lemma descending_insert p a data :
  descending p -> descending (map_incr_all (p ++ [(a, (data, 0))])).
Proof.
  induction p as [|e p IH]; simpl.
  - intros _. unfold count_of. simpl. repeat split; [lia | constructor].
  - intros (H1 & Hall & Hd). split; [unfold count_of in *; simpl; lia|].
    split; [|by apply IH].
    unfold map_incr_all. rewrite Forall_map. apply Forall_app. split.
    + eapply Forall_impl; [exact Hall|]. intros x Hx.
      unfold count_of in *. simpl. lia.
    + apply Forall_cons. split; [|constructor]. unfold count_of in *. simpl. lia.
Qed.

(** On a cache whose counts fall along the insertion order, the
    eviction step gives up the last line. *)
Lemma evict_descending self :
  wf (cache_lines self) -> descending (cache_lines self) ->
  0 < capacity self -> capacity self <= len_lines self ->
  exists front last,
    cache_lines self = front ++ [last] /\ evict_if_full self = Ok front.
Proof.
  intros Hwf Hd Hcap Hlen.
  destruct (evict_if_full_split self Hwf Hcap Hlen)
    as (p & k & dat & c & s & Heq & He & _ & Hs).
  rewrite Heq in Hd. apply descending_tail in Hd.
  destruct s as [|e s].
  - exists p, (k, (dat, c)). by rewrite app_nil_r in He.
  - apply Forall_cons in Hd as [Hd _]. apply Forall_cons in Hs as [Hs _].
    unfold count_of in *. simpl in *. lia.
Qed.

Lemma read_step_descending self self' :
  read_step self self' -> wf (cache_lines self) ->
  descending (cache_lines self) -> descending (cache_lines self').
Proof.
  intros [w a v w' Hr] Hwf Hd.
  apply Cache_read_cases in Hr as [->|(dat & kept & Ha & Hm & He & _ & ->)];
    [done|].
  simpl. pose proof (kept_wf _ _ Hwf He) as Hkwf.
  pose proof (kept_absent _ _ _ Hwf He Ha) as Hka.
  rewrite incr_all_map by (by apply wf_set). rewrite set_absent by done.
  apply descending_insert.
  apply evict_if_full_cases in He as [[_ ->]|(Hge & k & Hin & ->)]; [done|].
  unfold keys in Hin. apply in_map_iff in Hin as ([k0 v0] & Hk & Hin).
  simpl in Hk. subst k0. apply in_split in Hin as (l1 & l2 & Heq).
  rewrite Heq in Hd.
  assert (Hfront : descending l1) by (by eapply descending_front).
  clear Hkwf Hka. revert Hd Hwf. rewrite Heq. clear Heq.
  induction l1 as [|[k1 v1] l1 IH]; simpl.
  - rewrite Z.eqb_refl. by intros (_ & _ & H) _.
  - intros (H1 & Hall & Hd) Hwf'.
    destruct (Z.eqb_spec k k1) as [->|Hne].
    + done.
    + simpl. split; [done|]. split.
      * assert (Hsub : forall x, In x (pop (l1 ++ (k, v0) :: l2) k) ->
                                 In x (l1 ++ (k, v0) :: l2)).
        { clear. induction (l1 ++ (k, v0) :: l2) as [|[k' v'] l IHl]; simpl; [done|].
          destruct (Z.eqb k k'); simpl; [tauto|]. intros x [?|?]; [tauto|].
          right. by apply IHl. }
        apply List.Forall_forall. intros x Hx.
        rewrite List.Forall_forall in Hall. apply Hall. by apply Hsub.
      * apply IH; [by eapply descending_front | done |].
        unfold wf in *. simpl in Hwf'. by apply NoDup_cons in Hwf' as [_ ?].
Qed.

Lemma read_reachable_descending cap bus self :
  read_reachable cap bus self -> descending (cache_lines self).
Proof.
  intros Hr. unfold read_reachable in Hr.
  refine (rtc_ind_r (fun w => descending (cache_lines w))
            (Cache_init cap bus) _ _ self Hr).
  - done.
  - intros y z Hxy Hyz IH.
    apply (read_step_descending _ _ Hyz); [|done].
    by eapply reachable_wf, read_reachable_reachable.
Qed.

(** X6.  Used through reads only, a cache that is full gives up, on
    the next miss, the line it loaded last: the lines keep their
    insertion order, the last one is dropped and the new line takes
    its place with count 1, so the lines loaded first are never
    evicted. *)
Theorem read_only_evicts_latest cap bus self a data :
  0 < cap -> read_reachable cap bus self ->
  len_lines self = cap ->
  get (cache_lines self) a = None ->
  MemoryBus_read (memory_bus self) a = Some data ->
  exists front last,
    cache_lines self = front ++ [last] /\
    Cache_read self a
    = Ok (PInt data,
          with_lines self (map_incr_all front ++ [(a, (data, 1))])).
Proof.
  intros Hcap Hr Hlen Ha Hm.
  pose proof (read_reachable_reachable _ _ _ Hr) as Hrr.
  pose proof (reachable_wf _ _ _ Hrr) as Hwf.
  pose proof (reachable_capacity _ _ _ Hrr) as Hc.
  pose proof (read_reachable_descending _ _ _ Hr) as Hd.
  destruct (evict_descending self Hwf Hd) as (front & last & Heq & He); [lia | lia|].
  exists front, last. split; [done|].
  unfold Cache_read. rewrite Ha, Hm, He. simpl.
  pose proof (kept_wf _ _ Hwf He) as Hkwf.
  pose proof (kept_absent _ _ _ Hwf He Ha) as Hka.
  rewrite incr_all_map by (by apply wf_set). rewrite set_absent by done.
  unfold map_incr_all. by rewrite map_app.
Qed.

Lemma read_only_evicts_latest_witness :
  exists front last,
    cache_lines cache_full = front ++ [last] /\
    Cache_read cache_full 3
    = Ok (PInt 30,
          with_lines cache_full (map_incr_all front ++ [(3, (30, 1))])).
Proof.
  apply (read_only_evicts_latest 2 bus_three cache_full 3 30);
    [lia | | reflexivity | reflexivity | reflexivity].
  unfold read_reachable.
  eapply rtc_l; [by apply (read_step_intro _ 1 (PInt 10) _)|].
  eapply rtc_l; [by apply (read_step_intro _ 2 (PInt 20) _)|].
  apply rtc_refl.
Defined.

End ReadOnly.

(** ** More on the CPU: fetch, the frame of an instruction, jumps *)

Section CPUExtras.
Implicit Types (self cpu : CPU) (instruction r : string).

Lemma list_getitem_lt {A : Type} (l : list A) (i : Z) (a : A) :
  list_getitem l i = Ok a -> - Z.of_nat (length l) <= i < Z.of_nat (length l).
Proof.
  unfold list_getitem. destruct (Z.ltb_spec i 0) as [Hneg|Hpos].
  - destruct (Z.ltb_spec (i + Z.of_nat (length l)) 0); simpl; [done|].
    destruct (Z.leb_spec (Z.of_nat (length l)) (i + Z.of_nat (length l))); [done|].
    intros _. lia.
  - destruct (Z.ltb_spec i 0); [lia|]. simpl.
    destruct (Z.leb_spec (Z.of_nat (length l)) i); [done|]. intros _. lia.
Qed.

Lemma list_getitem_In {A : Type} (l : list A) (i : Z) (a : A) :
  list_getitem l i = Ok a -> In a l.
Proof.
  unfold list_getitem.
  destruct (_ || _); [done|].
  destruct (nth_error l _) as [x|] eqn:Hn; [|done].
  intros [= <-]. by eapply nth_error_In.
Qed.

Lemma fetch_getitem self instruction :
  list_getitem (instructions self) (PC self) = Ok instruction ->
  fetch_instruction self = Ok (Some instruction, with_PC self (PC self + 1)).
Proof.
  intros Hg. pose proof (list_getitem_lt _ _ _ Hg) as [_ Hlt].
  unfold fetch_instruction.
  destruct (Z.ltb_spec (PC self) (Z.of_nat (length (instructions self)))); [|lia].
  by rewrite Hg.
Qed.

(** X7.  A negative program counter is not the end of the program:
    from -len on it counts from the end of the instruction list, so
    the fetch returns the instruction at index len + PC and advances
    the counter; below -len the fetch raises IndexError. *)
Theorem fetch_negative_PC self :
  PC self < 0 ->
  (- Z.of_nat (length (instructions self)) <= PC self ->
   exists instruction,
     nth_error (instructions self)
               (Z.to_nat (Z.of_nat (length (instructions self)) + PC self))
     = Some instruction /\
     fetch_instruction self
     = Ok (Some instruction, with_PC self (PC self + 1))) /\
  (PC self < - Z.of_nat (length (instructions self)) ->
   fetch_instruction self = Raise IndexError).
Proof.
  intros Hneg. split.
  - intros Hge.
    destruct (nth_error (instructions self)
                (Z.to_nat (Z.of_nat (length (instructions self)) + PC self)))
      as [x|] eqn:Hn.
    + exists x. split; [done|]. apply fetch_getitem. unfold list_getitem.
      destruct (Z.ltb_spec (PC self) 0); [|lia].
      destruct (Z.ltb_spec (PC self + Z.of_nat (length (instructions self))) 0); [lia|].
      destruct (Z.leb_spec (Z.of_nat (length (instructions self)))
                  (PC self + Z.of_nat (length (instructions self)))); [lia|].
      simpl. rewrite Z.add_comm. by rewrite Hn.
    + apply nth_error_None in Hn. lia.
  - intros Hlt. unfold fetch_instruction, list_getitem.
    destruct (Z.ltb_spec (PC self) (Z.of_nat (length (instructions self)))); [|lia].
    destruct (Z.ltb_spec (PC self) 0); [|lia].
    destruct (Z.ltb_spec (PC self + Z.of_nat (length (instructions self))) 0); [|lia].
    done.
Qed.

Lemma fetch_negative_PC_witness :
  let self := with_PC (CPU_init cache_full program_B) (-1) in
  (- Z.of_nat (length (instructions self)) <= PC self ->
   exists instruction,
     nth_error (instructions self)
               (Z.to_nat (Z.of_nat (length (instructions self)) + PC self))
     = Some instruction /\
     fetch_instruction self
     = Ok (Some instruction, with_PC self (PC self + 1))) /\
  (PC self < - Z.of_nat (length (instructions self)) ->
   fetch_instruction self = Raise IndexError).
Proof.
  intros self. apply (fetch_negative_PC self). reflexivity.
Defined.

(** What an instruction that returns leaves alone; registers are
    assigned, never deleted. *)
Lemma execute_instruction_frame self instruction self' out :
  execute_instruction self instruction = Ok (self', out) ->
  instructions self' = instructions self /\
  memory_bus (cache self') = memory_bus (cache self) /\
  capacity (cache self') = capacity (cache self) /\
  (hd EmptyString (split_comma instruction) <> "J" -> PC self' = PC self) /\
  (hd EmptyString (split_comma instruction) <> "ADD" ->
   hd EmptyString (split_comma instruction) <> "ADDI" ->
   registers self' = registers self) /\
  (hd EmptyString (split_comma instruction) <> "HALT" ->
   running self' = running self) /\
  (hd EmptyString (split_comma instruction) <> "CACHE" ->
   cache self' = cache self /\ out = []) /\
  (forall r, is_Some (registers self !! r) -> is_Some (registers self' !! r)).
Proof.
  unfold execute_instruction. cbv zeta.
  destruct (String.eqb_spec (hd EmptyString (split_comma instruction)) "HALT") as [E|N1].
  { intros [= <- <-]. rewrite E. simpl. by repeat split. }
  destruct (String.eqb_spec (hd EmptyString (split_comma instruction)) "ADDI") as [E|N2].
  { rewrite E. destruct (split_comma instruction) as [|p0 [|p1 [|p2 [|p3 [|p4 l]]]]];
      try done.
    destruct (reg_get self p2) as [x|]; simpl; [|done].
    destruct (int p3) as [y|]; simpl; [|done].
    intros [= <- <-]. simpl. repeat split; try done.
    intros r Hr. unfold reg_set. simpl. rewrite lookup_insert. by case_decide. }
  destruct (String.eqb_spec (hd EmptyString (split_comma instruction)) "ADD") as [E|N3].
  { rewrite E. destruct (split_comma instruction) as [|p0 [|p1 [|p2 [|p3 [|p4 l]]]]];
      try done.
    destruct (reg_get self p2) as [x|]; simpl; [|done].
    destruct (reg_get self p3) as [y|]; simpl; [|done].
    intros [= <- <-]. simpl. repeat split; try done.
    intros r Hr. unfold reg_set. simpl. rewrite lookup_insert. by case_decide. }
  destruct (String.eqb_spec (hd EmptyString (split_comma instruction)) "J") as [E|N4].
  { rewrite E. destruct (split_comma instruction) as [|p0 [|p1 [|p2 l]]]; try done.
    destruct (int p1) as [x|]; simpl; [|done].
    intros [= <- <-]. simpl. by repeat split. }
  destruct (String.eqb_spec (hd EmptyString (split_comma instruction)) "CACHE") as [E|N5].
  { rewrite E. destruct (split_comma instruction) as [|p0 [|p1 [|p2 l]]]; try done.
    destruct (int p1) as [x|]; simpl; [|done].
    destruct (Cache_read (cache self) x) as [[v c']|] eqn:Hr; simpl; [|done].
    intros [= <- <-]. simpl.
    assert (memory_bus c' = memory_bus (cache self) /\
            capacity c' = capacity (cache self)) as [-> ->].
    { apply Cache_read_cases in Hr as [->|(d & kept & _ & _ & _ & _ & ->)]; done. }
    by repeat split. }
  intros [= <- <-]. by repeat split.
Qed.


(** X8.  What an instruction that returns leaves alone.  No
    instruction changes the instruction list, the memory bus or the
    capacity of the cache; only J changes the program counter, only
    ADD and ADDI the registers, only HALT the [running] flag, and only
    CACHE the cache or the output. *)
Theorem execute_frame self instruction self' out :
  execute_instruction self instruction = Ok (self', out) ->
  instructions self' = instructions self /\
  memory_bus (cache self') = memory_bus (cache self) /\
  capacity (cache self') = capacity (cache self) /\
  (hd EmptyString (split_comma instruction) <> "J" -> PC self' = PC self) /\
  (hd EmptyString (split_comma instruction) <> "ADD" ->
   hd EmptyString (split_comma instruction) <> "ADDI" ->
   registers self' = registers self) /\
  (hd EmptyString (split_comma instruction) <> "HALT" ->
   running self' = running self) /\
  (hd EmptyString (split_comma instruction) <> "CACHE" ->
   cache self' = cache self /\ out = []).
Proof.
  intros H. apply execute_instruction_frame in H.
  destruct H as (H1 & H2 & H3 & H4 & H5 & H6 & H7 & _).
  exact (conj H1 (conj H2 (conj H3 (conj H4 (conj H5 (conj H6 H7)))))).
Qed.

Lemma execute_frame_witness :
  let self := CPU_init cache_full program_B in
  let self' := mkCPU (mkCache 2 bus_three [(1, (10, 3)); (3, (30, 1))])
                     (registers self) 0 true program_B in
  instructions self' = instructions self /\
  memory_bus (cache self') = memory_bus (cache self) /\
  capacity (cache self') = capacity (cache self) /\
  (hd EmptyString (split_comma "CACHE,3") <> "J" -> PC self' = PC self) /\
  (hd EmptyString (split_comma "CACHE,3") <> "ADD" ->
   hd EmptyString (split_comma "CACHE,3") <> "ADDI" ->
   registers self' = registers self) /\
  (hd EmptyString (split_comma "CACHE,3") <> "HALT" ->
   running self' = running self) /\
  (hd EmptyString (split_comma "CACHE,3") <> "CACHE" ->
   cache self' = cache self /\ [Printed (PInt 30)] = []).
Proof.
  intros self self'.
  apply (execute_frame self "CACHE,3" self' [Printed (PInt 30)]).
  reflexivity.
Defined.

Lemma fetch_Some cpu instruction self :
  fetch_instruction cpu = Ok (Some instruction, self) ->
  list_getitem (instructions cpu) (PC cpu) = Ok instruction /\
  self = with_PC cpu (PC cpu + 1).
Proof.
  unfold fetch_instruction.
  destruct (Z.ltb (PC cpu) (Z.of_nat (length (instructions cpu)))); [|done].
  destruct (list_getitem (instructions cpu) (PC cpu)) as [x|]; simpl; [|done].
  by intros [= <- <-].
Qed.

Lemma fetch_None cpu self :
  fetch_instruction cpu = Ok (None, self) ->
  self = cpu /\ Z.of_nat (length (instructions cpu)) <= PC cpu.
Proof.
  unfold fetch_instruction.
  destruct (Z.ltb_spec (PC cpu) (Z.of_nat (length (instructions cpu)))).
  - by destruct (list_getitem (instructions cpu) (PC cpu)).
  - by intros [= <-].
Qed.

Lemma fetch_Raise cpu e : fetch_instruction cpu = Raise e -> e = IndexError.
Proof.
  unfold fetch_instruction, list_getitem.
  destruct (Z.ltb (PC cpu) (Z.of_nat (length (instructions cpu)))); [|done].
  destruct (_ || _); simpl; [by intros [= <-]|].
  destruct (nth_error _ _); simpl; [done | by intros [= <-]].
Qed.

(** X9.  Whatever the program, when [run] is left the instruction
    list, the memory bus and the capacity of the cache are the ones it
    started with: the CPU never writes to memory.  Every register
    defined at the start is still defined; the instructions executed
    and the values printed extend what had been done before. *)
Theorem run_preserves fuel self out ran e :
  run_loop fuel self out ran = Some e ->
  instructions (final e) = instructions self /\
  memory_bus (cache (final e)) = memory_bus (cache self) /\
  capacity (cache (final e)) = capacity (cache self) /\
  (forall r, is_Some (registers self !! r) -> is_Some (registers (final e) !! r)) /\
  (exists ran', executed e = ran ++ ran') /\
  (exists out', printed e = out ++ out').
Proof.
  revert self out ran. induction fuel as [|fuel IH]; intros self out ran; [done|].
  cbn [run_loop].
  assert (Hnil : forall (A : Type) (l : list A), exists l', l = l ++ l')
    by (intros A l; exists []; by rewrite app_nil_r).
  destruct (running self); [|intros [= <-]; simpl; by repeat split].
  destruct (fetch_instruction self) as [[[i|] self1]|x] eqn:Hf;
    [| |intros [= <-]; simpl; by repeat split].
  - apply fetch_Some in Hf as [_ ->].
    destruct (truthy i); [|intros [= <-]; simpl; by repeat split].
    destruct (execute_instruction (with_PC self (PC self + 1)) i)
      as [[self2 o]|x] eqn:He.
    + intros Hrun. apply IH in Hrun as (H1 & H2 & H3 & H4 & [r' H5] & [o' H6]).
      apply execute_instruction_frame in He
        as (E1 & E2 & E3 & _ & _ & _ & _ & E8).
      simpl in *. rewrite H1, H2, H3, E1, E2, E3.
      repeat split; try done.
      * intros r Hr. by apply H4, E8.
      * exists ([i] ++ r'). by rewrite H5, <- app_assoc.
      * exists (o ++ o'). by rewrite H6, <- app_assoc.
    + intros [= <-]. simpl. repeat split; try done. by exists [i].
  - apply fetch_None in Hf as [-> _]. intros [= <-]. simpl. by repeat split.
Qed.

Lemma run_preserves_witness :
  let self := CPU_init cache_full ["CACHE,3"; "ADDI,R7,R1,2"; "J,9"] in
  exists e,
    run 4 self = Some e /\
    instructions (final e) = instructions self /\
    memory_bus (cache (final e)) = memory_bus (cache self) /\
    capacity (cache (final e)) = capacity (cache self) /\
    (forall r, is_Some (registers self !! r) -> is_Some (registers (final e) !! r)) /\
    (exists ran', executed e = [] ++ ran') /\
    (exists out', printed e = [] ++ out').
Proof.
  intros self.
  destruct (run 4 self) as [e|] eqn:He; [|by vm_compute in He].
  exists e. split; [done|]. by apply (run_preserves 4 self [] [] e).
Defined.

(** X10.  An instruction with the wrong number of fields raises
    ValueError: ADD and ADDI need exactly four comma-separated fields,
    J and CACHE exactly two. *)
Theorem wrong_arity_raises self instruction :
  ((hd EmptyString (split_comma instruction) = "ADDI" \/
    hd EmptyString (split_comma instruction) = "ADD") /\
   length (split_comma instruction) <> 4%nat) \/
  ((hd EmptyString (split_comma instruction) = "J" \/
    hd EmptyString (split_comma instruction) = "CACHE") /\
   length (split_comma instruction) <> 2%nat) ->
  execute_instruction self instruction = Raise ValueError.
Proof.
  unfold execute_instruction. cbv zeta.
  intros [[[E|E] Hlen]|[[E|E] Hlen]]; rewrite E; simpl;
    destruct (split_comma instruction) as [|p0 [|p1 [|p2 [|p3 [|p4 l]]]]];
    simpl in *; done.
Qed.

Lemma wrong_arity_raises_witness :
  execute_instruction (CPU_init cache_full []) "ADD,R1,R2" = Raise ValueError.
Proof.
  apply (wrong_arity_raises (CPU_init cache_full []) "ADD,R1,R2").
  left. split; [by right | by vm_compute].
Defined.

(** X11.  A program without a J instruction always leaves [run]: from
    a program counter that is not negative, the loop stops or raises
    within as many iterations as there are instructions left, plus
    one for the failing test or fetch. *)
Theorem run_without_jump_terminates (n : nat) self out ran :
  0 <= PC self ->
  Forall (fun i => hd EmptyString (split_comma i) <> "J") (instructions self) ->
  Z.of_nat (length (instructions self)) - PC self <= Z.of_nat n ->
  exists e, run_loop (S n) self out ran = Some e.
Proof.
  revert self out ran. induction n as [|n IH]; intros self out ran Hpc Hall Hlen;
    cbn [run_loop]; (destruct (running self); [|eauto]);
    destruct (fetch_instruction self) as [[[i|] self1]|x] eqn:Hf; eauto;
    apply fetch_Some in Hf as [Hg ->];
    pose proof (list_getitem_lt _ _ _ Hg) as [_ Hlt].
  - lia.
  - destruct (truthy i); [|eauto].
    destruct (execute_instruction (with_PC self (PC self + 1)) i)
      as [[self2 o]|x] eqn:He; [|eauto].
    assert (Hi : hd EmptyString (split_comma i) <> "J").
    { rewrite List.Forall_forall in Hall. apply Hall. by eapply list_getitem_In. }
    apply execute_instruction_frame in He as (E1 & _ & _ & E4 & _).
    specialize (E4 Hi). simpl in E1, E4.
    apply IH; rewrite ?E1, ?E4; [lia | done | lia].
Qed.

Lemma run_without_jump_terminates_witness :
  exists e, run_loop 5 (CPU_init cache_full program_B) [] [] = Some e.
Proof.
  apply (run_without_jump_terminates 4 (CPU_init cache_full program_B) [] []).
  - simpl. lia.
  - simpl. repeat constructor; by vm_compute.
  - simpl. lia.
Defined.








End CPUExtras.

(** ** The seed files and the final dump *)

Section SeedFiles.
Implicit Types (self : MemoryBus) (line : string) (l m : list ascii).







(** *** The dump of an address reads back *)

Lemma bits_snoc acc f l c v d :
  bits acc f l = Some v -> bit_of c = Some d ->
  bits acc f (l ++ [c]) = Some (2 * v + d).
Proof.
  revert acc f. induction l as [|x l IH]; intros acc f; simpl.
  - destruct f; [|done]. intros [= <-] ->. done.
  - destruct (bit_of x) as [dx|].
    + apply IH.
    + destruct (Ascii.eqb x "_" && f); [apply IH | done].
Qed.

Lemma bits_pos_bits f p : bits 0 f (pos_bits p) = Some (Zpos p).
Proof.
  induction p as [p IH|p IH|]; simpl.
  - by rewrite (bits_snoc 0 f (pos_bits p) "1"%char (Zpos p) 1 IH eq_refl).
  - rewrite (bits_snoc 0 f (pos_bits p) "0"%char (Zpos p) 0 IH eq_refl).
    by rewrite Z.add_0_r.
  - done.
Qed.

Lemma bits_zeros f k l :
  l <> [] -> bits 0 f (repeat "0"%char k ++ l) = bits 0 (f || negb (Nat.eqb k 0)) l.
Proof.
  intros Hl. revert f. induction k as [|k IH]; intros f; simpl.
  - by rewrite orb_false_r.
  - rewrite IH. by rewrite orb_true_r.
Qed.

Lemma pos_bits_is_bit p : Forall is_bit (pos_bits p).
Proof.
  induction p as [p IH|p IH|]; simpl.
  - apply Forall_app. split; [done|]. apply Forall_singleton. by right.
  - apply Forall_app. split; [done|]. apply Forall_singleton. by left.
  - apply Forall_singleton. by right.
Qed.

Lemma pos_bits_nonempty p : pos_bits p <> [].
Proof. destruct p; simpl; try done; by destruct (pos_bits p). Qed.

Lemma skip_prefix_bits l : Forall is_bit l -> skip_prefix_0b l = l.
Proof.
  destruct l as [|z [|b r]]; try done. intros Hall.
  apply Forall_cons in Hall as [_ Hall]. apply Forall_cons in Hall as [Hb _].
  unfold skip_prefix_0b. destruct Hb as [-> | ->]; by rewrite andb_false_r.
Qed.

Lemma lstrip_id l :
  match l with c :: _ => is_space c = false | [] => True end -> lstrip l = l.
Proof. destruct l as [|c r]; simpl; [done|]. by intros ->. Qed.

Lemma strip_id l :
  Forall (fun c => is_space c = false) l -> strip l = l.
Proof.
  intros Hall. unfold strip.
  rewrite (lstrip_id l) by (destruct l; [done | by apply Forall_cons in Hall as [? _]]).
  rewrite lstrip_id; [apply rev_involutive|].
  apply Forall_rev in Hall. destruct (rev l); [done|].
  by apply Forall_cons in Hall as [? _].
Qed.

Lemma is_bit_not_space c : is_bit c -> is_space c = false.
Proof. by intros [-> | ->]. Qed.

Lemma bits_padded f k p :
  bits 0 f (repeat "0"%char k ++ pos_bits p) = Some (Zpos p).
Proof.
  rewrite bits_zeros by apply pos_bits_nonempty. apply bits_pos_bits.
Qed.

Lemma padded_is_bit k p : Forall is_bit (repeat "0"%char k ++ pos_bits p).
Proof.
  apply Forall_app. split; [|apply pos_bits_is_bit].
  induction k; simpl; [constructor|]. apply Forall_cons. split; [by left | done].
Qed.

(** [int(f"{n:08b}", 2) == n] *)
Lemma format_08b_round_trip n : py_int2 (format_08b n) = Some n.
Proof.
  unfold py_int2, format_08b. cbv zeta.
  rewrite list_ascii_of_string_of_list_ascii.
  destruct n as [|p|p].
  - by vm_compute.
  - change (Z.ltb (Z.pos p) 0) with false. cbv iota. rewrite app_nil_l.
    set (k := (8 - length (@nil ascii) - length (bin_digits (Z.pos p)))%nat).
    change (bin_digits (Z.pos p)) with (pos_bits p).
    pose proof (padded_is_bit k p) as Hb.
    pose proof (bits_padded false k p) as Hv.
    rewrite strip_id
      by (eapply Forall_impl; [exact Hb | apply is_bit_not_space]).
    destruct (repeat "0"%char k ++ pos_bits p) as [|c r] eqn:Heq.
    { apply (f_equal (@length ascii)) in Heq. rewrite length_app in Heq.
      pose proof (pos_bits_nonempty p) as Hne.
      destruct (pos_bits p); [done | simpl in Heq; lia]. }
    assert (Hc : is_bit c) by (by apply Forall_cons in Hb as [? _]).
    rewrite (skip_prefix_bits _ Hb).
    by destruct Hc as [-> | ->].
  - change (Z.ltb (Z.neg p) 0) with true. cbv iota.
    set (k := (8 - length ["-"%char] - length (bin_digits (Z.neg p)))%nat).
    change (bin_digits (Z.neg p)) with (pos_bits p).
    rewrite strip_id.
    2:{ apply Forall_cons. split; [done|].
        eapply Forall_impl; [apply padded_is_bit | apply is_bit_not_space]. }
    change (["-"%char] ++ repeat "0"%char k ++ pos_bits p)
      with ("-"%char :: (repeat "0"%char k ++ pos_bits p)).
    cbv iota. change (Ascii.eqb "-" "-") with true. cbv iota.
    rewrite (skip_prefix_bits _ (padded_is_bit k p)).
    by rewrite bits_padded.
Qed.

(** X16.  The addresses of the final dump read back: parsing the
    8-digit binary text of each dumped line with [int(text, 2)], as
    [load_data] parses an address, gives the addresses of the cache
    lines, in insertion order and with their data; this holds for
    addresses of more than 8 bits and for negative ones too. *)
Theorem dump_cache_reads_back (d : PyDict.t) :
  map (fun r => (py_int2 (fst r), snd r)) (dump_cache d)
  = map (fun e => (Some (fst e), fst (snd e))) d.
Proof.
  unfold dump_cache. rewrite map_map. apply map_ext. intros e. simpl.
  by rewrite format_08b_round_trip.
Qed.

(** *** Loading the instructions *)

Lemma list_ascii_of_string_app (s1 s2 : string) :
  list_ascii_of_string (String.append s1 s2)
  = list_ascii_of_string s1 ++ list_ascii_of_string s2.
Proof. induction s1 as [|c s1 IH]; simpl; [done | by rewrite IH]. Qed.

Lemma lstrip_snoc l c :
  is_space c = true ->
  lstrip (l ++ [c]) = match lstrip l with [] => [] | _ :: _ => lstrip l ++ [c] end.
Proof.
  intros Hc. induction l as [|x l IH]; simpl.
  - by rewrite Hc.
  - by destruct (is_space x).
Qed.

Lemma strip_snoc l c : is_space c = true -> strip (l ++ [c]) = strip l.
Proof.
  intros Hc. unfold strip. rewrite lstrip_snoc by done.
  destruct (lstrip l) as [|x m]; [done|].
  rewrite rev_app_distr. simpl rev at 1. simpl app at 1.
  change (lstrip (c :: rev (x :: m))) with
    (if is_space c then lstrip (rev (x :: m)) else c :: rev (x :: m)).
  by rewrite Hc.
Qed.

Lemma py_strip_line_end (s : string) : py_strip (String.append s newline) = py_strip s.
Proof.
  unfold py_strip. rewrite list_ascii_of_string_app.
  change (list_ascii_of_string newline) with [ascii_of_nat 10].
  by rewrite strip_snoc.
Qed.

Lemma lstrip_spaces l : Forall (fun c => is_space c = true) l -> lstrip l = [].
Proof.
  induction l as [|c l IH]; simpl; [done|].
  intros Hall. apply Forall_cons in Hall as [-> Hall]. by apply IH.
Qed.

Lemma py_strip_blank line :
  Forall (fun c => is_space c = true) (list_ascii_of_string line) ->
  py_strip line = EmptyString.
Proof. intros Hall. unfold py_strip, strip. by rewrite (lstrip_spaces _ Hall). Qed.

(** X17.  [load_instructions] removes the line ends: from a file whose
    lines are instruction texts without spaces around them, each
    followed by a line end, the CPU gets exactly these texts, one per
    line and in order; nothing else of the CPU changes. *)
Theorem load_instructions_strips_line_ends (cpu : CPU) (texts : list string) :
  Forall (fun i => py_strip i = i) texts ->
  load_instructions cpu (map (fun i => String.append i newline) texts)
  = mkCPU (cache cpu) (registers cpu) (PC cpu) (running cpu) texts.
Proof.
  intros Hall. unfold load_instructions. f_equal. rewrite map_map.
  induction texts as [|i texts IH]; simpl; [done|].
  apply Forall_cons in Hall as [Hi Hall].
  by rewrite py_strip_line_end, Hi, IH.
Qed.

Lemma load_instructions_strips_line_ends_witness :
  load_instructions (CPU_init cache_full [])
    (map (fun i => String.append i newline) program_B)
  = mkCPU cache_full (registers (CPU_init cache_full [])) 0 true program_B.
Proof.
  apply (load_instructions_strips_line_ends (CPU_init cache_full []) program_B).
  repeat (apply Forall_cons; split; [by vm_compute|]). constructor.
Defined.

(** X18.  A blank line in the instruction file ends the program: the
    line is loaded as the empty string, and when [run] fetches it the
    loop is left by [break], the program counter one past the line,
    the instructions after it never executed, [running] still true. *)
Theorem blank_line_ends_program (cpu : CPU) (lines : list string) (line : string)
    (out : list event) (ran : list string) (n : nat) :
  running cpu = true -> 0 <= PC cpu ->
  nth_error lines (Z.to_nat (PC cpu)) = Some line ->
  Forall (fun c => is_space c = true) (list_ascii_of_string line) ->
  run_loop (S n) (load_instructions cpu lines) out ran
  = Some (mkRunEnd (with_PC (load_instructions cpu lines) (PC cpu + 1))
            out ran Break).
Proof.
  intros Hrun Hpc Hn Hblank.
  assert (Hg : list_getitem (map py_strip lines) (PC cpu) = Ok EmptyString).
  { unfold list_getitem. rewrite length_map.
    assert (Hlt : (Z.to_nat (PC cpu) < length lines)%nat)
      by (apply nth_error_Some; by rewrite Hn).
    destruct (Z.ltb_spec (PC cpu) 0); [lia|].
    destruct (Z.ltb_spec (PC cpu) 0); [lia|].
    destruct (Z.leb_spec (Z.of_nat (length lines)) (PC cpu)); [lia|]. simpl.
    rewrite nth_error_map, Hn. simpl. by rewrite py_strip_blank. }
  cbn [run_loop]. simpl running. rewrite Hrun.
  by rewrite (fetch_getitem (load_instructions cpu lines) EmptyString Hg).
Qed.

Lemma blank_line_ends_program_witness :
  run_loop 1
    (load_instructions (CPU_init cache_full []) [newline; String.append "HALT" newline])
    [] []
  = Some (mkRunEnd
            (with_PC (load_instructions (CPU_init cache_full [])
                        [newline; String.append "HALT" newline]) (0 + 1))
            [] [] Break).
Proof.
  apply (blank_line_ends_program (CPU_init cache_full [])
           [newline; String.append "HALT" newline] newline [] [] 0).
  - reflexivity.
  - simpl. lia.
  - reflexivity.
  - apply Forall_singleton. by vm_compute.
Defined.

End SeedFiles.
